(** * SecureShare: the client-side envelope-encryption engine

    A shallow embedding of [src/lib/encryption.ts] and of the download flow
    of the [FileList] component ([handleDecrypt], under
    [components/dashboard]), together with the platform functions they
    call ([btoa], [atob], [TextEncoder.encode] and the [crypto.subtle]
    entry points).

    JavaScript strings are sequences of 16-bit code units, byte buffers
    ([ArrayBuffer], [Uint8Array], [Blob], [File]) are lists of bytes,
    exceptions are results, [await] is sequencing, and the randomness
    drawn by [crypto.getRandomValues] and by the key generators is threaded
    through every call as an explicit entropy state. *)

From Stdlib.Strings Require Import Byte Ascii String.
From Stdlib.Numbers Require DecimalString.
From stdpp Require Import base numbers list.

Local Open Scope N_scope.

(** ** JavaScript values *)

(** A JavaScript string: its UTF-16 code units. *)
Definition JSString := list N.

(** A byte buffer. *)
Definition Bytes := list byte.

(** A string literal of the source (ASCII only). *)
Definition lit (s : string) : JSString :=
  map N_of_ascii (list_ascii_of_string s).

(** Storing a number into a [Uint8Array] cell keeps it modulo 256. *)
Definition u8 (n : N) : byte :=
  match Byte.of_N (n mod 256) with
  | Some b => b
  | None => x00
  end.

(** [String.fromCharCode(b)] for a byte and [s.charCodeAt(i)] (NaN, stored
    as 0 in a typed array, past the end). *)
Definition fromCharCode (b : byte) : N := Byte.to_N b.
Definition charCodeAt (s : JSString) (i : nat) : N := nth i s 0.

(** The exceptions that the platform raises in this code, by name. The
    standard fixes the name of a [DOMException] and leaves its text to the
    implementation. An [OperationError] is raised by a primitive that
    fails, and its text is worded for the failure at hand (Chromium: "The
    provided data is too small" for a ciphertext shorter than the tag,
    the empty text for a tag that does not verify): it carries that
    text. *)
Inductive DOMExceptionName :=
| InvalidCharacterError
| OperationError (message : string)
| InvalidAccessError
| DataError
| SyntaxError
| NotSupportedError.

(** What a primitive fails on: the reason behind an [OperationError]. *)
Inductive Failure :=
| aes_gcm_decrypt_failed (key iv data : Bytes)
| rsa_oaep_encrypt_failed (data : Bytes)
| rsa_oaep_decrypt_failed (data : Bytes)
| aes_length_refused (bits : N)
| pbkdf2_iterations_refused
| key_material_missing.

(** A thrown value: a [DOMException] of the platform, an [Error] built by
    the application with its message, or the error object returned by the
    database or storage client. *)
Inductive JsError :=
| DOMException (name : DOMExceptionName)
| Error (message : string)
| ClientError (message : string).

Inductive Result (A : Type) :=
| Ok (a : A)
| Throw (e : JsError).
Arguments Ok {A} a.
Arguments Throw {A} e.

(** ** The base64 codec of the platform: [btoa] and [atob] *)

Module Base64.

Definition pad : N := 61.  (* '=' *)

(** The character of a 6-bit value. *)
Definition char_of (s : N) : N :=
  if s <? 26 then 65 + s
  else if s <? 52 then 97 + (s - 26)
  else if s <? 62 then 48 + (s - 52)
  else if s =? 62 then 43
  else 47.

(** The 6-bit value of a character of the alphabet. *)
Definition value_of (c : N) : option N :=
  if (65 <=? c) && (c <=? 90) then Some (c - 65)
  else if (97 <=? c) && (c <=? 122) then Some (c - 97 + 26)
  else if (48 <=? c) && (c <=? 57) then Some (c - 48 + 52)
  else if c =? 43 then Some 62
  else if c =? 47 then Some 63
  else None.

Definition in_alphabet (c : N) : bool :=
  match value_of c with Some _ => true | None => false end.

(** TAB, LF, FF, CR and SPACE. *)
Definition ascii_whitespace (c : N) : bool :=
  (c =? 9) || (c =? 10) || (c =? 12) || (c =? 13) || (c =? 32).

(** The characters of the encoding, before padding. *)
Fixpoint encode_body (bs : Bytes) : JSString :=
  match bs with
  | [] => []
  | [a] =>
      let a := Byte.to_N a in
      [char_of (a / 4); char_of ((a mod 4) * 16)]
  | [a; b] =>
      let a := Byte.to_N a in
      let b := Byte.to_N b in
      [char_of (a / 4); char_of ((a mod 4) * 16 + b / 16);
       char_of ((b mod 16) * 4)]
  | a :: b :: c :: rest =>
      let a := Byte.to_N a in
      let b := Byte.to_N b in
      let c := Byte.to_N c in
      [char_of (a / 4); char_of ((a mod 4) * 16 + b / 16);
       char_of ((b mod 16) * 4 + c / 64); char_of (c mod 64)]
      ++ encode_body rest
  end.

Definition padding (len : nat) : JSString :=
  match (len mod 3)%nat with
  | 1%nat => [pad; pad]
  | 2%nat => [pad]
  | _ => []
  end.

Definition encode (bs : Bytes) : JSString :=
  encode_body bs ++ padding (length bs).

(** Forgiving-base64 decoding, step 2: when the length is a multiple of
    four, one or two trailing '=' are removed. *)
Definition strip_one (data : JSString) : JSString :=
  match rev data with
  | c :: r => if c =? pad then rev r else data
  | [] => data
  end.

Definition strip_padding (data : JSString) : JSString :=
  if (length data mod 4 =? 0)%nat then strip_one (strip_one data)
  else data.

(** Steps 5 to 8: six bits are appended to the buffer per character,
    three bytes leave it when it holds 24 bits, and the 12 or 18 bits
    left at the end give one or two bytes, their low bits discarded. *)
Fixpoint decode_loop (data : JSString) (buffer bits : N) : option Bytes :=
  match data with
  | [] =>
      if bits =? 0 then Some []
      else if bits =? 12 then Some [u8 (buffer / 16)]
      else if bits =? 18 then Some [u8 (buffer / 1024); u8 (buffer / 4)]
      else None
  | c :: rest =>
      match value_of c with
      | None => None
      | Some v =>
          let buffer := buffer * 64 + v in
          let bits := bits + 6 in
          if bits =? 24 then
            option_map
              (fun out =>
                 u8 (buffer / 65536) :: u8 (buffer / 256) :: u8 buffer :: out)
              (decode_loop rest 0 0)
          else decode_loop rest buffer bits
      end
  end.

Definition decode (data : JSString) : option Bytes :=
  let data := List.filter (fun c => negb (ascii_whitespace c)) data in
  let data := strip_padding data in
  if (length data mod 4 =? 1)%nat then None
  else if negb (forallb in_alphabet data) then None
  else decode_loop data 0 0.

End Base64.

(** [btoa(s)]: throws when [s] has a code unit above 255. *)
Definition btoa (s : JSString) : Result JSString :=
  if forallb (fun c => c <=? 255) s
  then Ok (Base64.encode (map u8 s))
  else Throw (DOMException InvalidCharacterError).

(** [atob(s)]: the decoded bytes as a string of code units below 256. *)
Definition atob (s : JSString) : Result JSString :=
  match Base64.decode s with
  | Some bs => Ok (map fromCharCode bs)
  | None => Throw (DOMException InvalidCharacterError)
  end.

(** ** encryption.ts: the codec *)

(** [arrayBufferToBase64]: the loop appends one character per byte. *)
Definition arrayBufferToBase64 (buffer : Bytes) : Result JSString :=
  let bytes := buffer in
  let binary :=
    fold_left
      (fun binary i => binary ++ [fromCharCode (nth i bytes x00)])
      (seq 0 (length bytes)) [] in
  btoa binary.

(** [base64ToArrayBuffer]: a zero-filled array of the length of the decoded
    string, then one store per index. *)
Definition base64ToArrayBuffer (base64 : JSString) : Result Bytes :=
  match atob base64 with
  | Throw e => Throw e
  | Ok binary =>
      let bytes := replicate (length binary) x00 in
      Ok (fold_left
            (fun bytes i => <[i := u8 (charCodeAt binary i)]> bytes)
            (seq 0 (length binary)) bytes)
  end.

(** ** [TextEncoder.encode]: the UTF-8 bytes of a string *)

Definition is_high_surrogate (c : N) : bool := (0xD800 <=? c) && (c <=? 0xDBFF).
Definition is_low_surrogate (c : N) : bool := (0xDC00 <=? c) && (c <=? 0xDFFF).

Definition utf8_of_code_point (cp : N) : Bytes :=
  if cp <? 0x80 then [u8 cp]
  else if cp <? 0x800 then [u8 (0xC0 + cp / 64); u8 (0x80 + cp mod 64)]
  else if cp <? 0x10000 then
    [u8 (0xE0 + cp / 4096); u8 (0x80 + (cp / 64) mod 64); u8 (0x80 + cp mod 64)]
  else
    [u8 (0xF0 + cp / 262144); u8 (0x80 + (cp / 4096) mod 64);
     u8 (0x80 + (cp / 64) mod 64); u8 (0x80 + cp mod 64)].

(** U+FFFD, which stands for every surrogate that has no partner. *)
Definition replacement_character : N := 0xFFFD.

Fixpoint TextEncoder_encode (s : JSString) : Bytes :=
  match s with
  | [] => []
  | c :: rest =>
      if is_high_surrogate c then
        match rest with
        | d :: rest' =>
            if is_low_surrogate d
            then utf8_of_code_point
                   (0x10000 + (c - 0xD800) * 1024 + (d - 0xDC00))
                 ++ TextEncoder_encode rest'
            else utf8_of_code_point replacement_character
                 ++ TextEncoder_encode rest
        | [] => utf8_of_code_point replacement_character
        end
      else if is_low_surrogate c then
        utf8_of_code_point replacement_character ++ TextEncoder_encode rest
      else utf8_of_code_point c ++ TextEncoder_encode rest
  end.

(** [s.includes(sub)] on messages. *)
Definition includes (s sub : string) : bool :=
  match String.index 0 sub s with
  | Some _ => true
  | None => false
  end.

(** ** The platform: cryptographic primitives and JSON

    The primitives behind [crypto.subtle] and [crypto.getRandomValues], the
    text each [DOMException] carries (it differs between browsers, and for
    an [OperationError] with the failure), whether AES keys of 192 bits are
    implemented (Chromium refuses them), and [JSON.stringify]/[JSON.parse]
    at the one shape the application stores. *)

Record SealedPrivateKey := {
  encryptedKey : JSString;
  salt : JSString;
  iv : JSString;
}.

Class Platform := {
  Entropy : Type;
  RsaPublic : Type;
  RsaPrivate : Type;
  (** [crypto.getRandomValues(new Uint8Array(n))] *)
  getRandomValues : nat -> Entropy -> Bytes * Entropy;
  (** AES-GCM with a 128-bit tag appended: key, iv, data *)
  aes_gcm_encrypt : Bytes -> Bytes -> Bytes -> Bytes;
  aes_gcm_decrypt : Bytes -> Bytes -> Bytes -> option Bytes;
  aes_generate : N -> Entropy -> Bytes * Entropy;
  aes_192 : bool;
  (** PBKDF2 with HMAC-SHA-256: password, salt, iterations, length in bits *)
  pbkdf2_sha256 : Bytes -> Bytes -> N -> N -> Bytes;
  (** RSA: modulus length and public exponent *)
  rsa_generate : N -> Bytes -> Entropy -> (RsaPublic * RsaPrivate) * Entropy;
  (** RSA-OAEP with SHA-256 and an empty label *)
  rsa_oaep_encrypt : RsaPublic -> Bytes -> Entropy -> option Bytes * Entropy;
  rsa_oaep_decrypt : RsaPrivate -> Bytes -> option Bytes;
  (** SubjectPublicKeyInfo and PKCS#8 *)
  spki_export : RsaPublic -> Bytes;
  spki_import : Bytes -> option RsaPublic;
  pkcs8_export : RsaPrivate -> Bytes;
  pkcs8_import : Bytes -> option RsaPrivate;
  sha256 : Bytes -> Bytes;
  (** the text of the exceptions of the checks, by name, and of an
      [OperationError], by the failure *)
  dom_message : DOMExceptionName -> string;
  operation_message : Failure -> string;
  JSON_stringify : SealedPrivateKey -> JSString;
  JSON_parse : JSString -> Result SealedPrivateKey;
}.

(** ** The monads of the embedding *)

(** An [async] function that draws no randomness is a [Result]. *)
Definition rbind {A B} (r : Result A) (k : A -> Result B) : Result B :=
  match r with
  | Ok a => k a
  | Throw e => Throw e
  end.

Notation "'let?' x ':=' r 'in' k" := (rbind r (fun x => k))
  (at level 10, x pattern, r at level 100, k at level 200).

Definition throwDOM {A} (n : DOMExceptionName) : Result A :=
  Throw (DOMException n).

Section Monad.

Context {P : Platform}.

(** One that draws randomness threads the entropy. *)
Definition M (A : Type) : Type := Entropy -> Result A * Entropy.

Definition ret {A} (a : A) : M A := fun e => (Ok a, e).

Definition bind {A B} (m : M A) (k : A -> M B) : M B :=
  fun e =>
    match m e with
    | (Ok a, e') => k a e'
    | (Throw x, e') => (Throw x, e')
    end.

Definition lift {A} (r : Result A) : M A := fun e => (r, e).

Definition draw {A} (f : Entropy -> A * Entropy) : M A :=
  fun e => let (a, e') := f e in (Ok a, e').

(** A primitive fails: the [OperationError] with the platform's text for
    the failure. *)
Definition operation_error (f : Failure) : JsError :=
  DOMException (OperationError (operation_message f)).

Definition throwOperationError {A} (f : Failure) : Result A :=
  Throw (operation_error f).

(** The message of a thrown value ([error.message]). *)
Definition message (e : JsError) : string :=
  match e with
  | DOMException (OperationError text) => text
  | DOMException n => dom_message n
  | Error m => m
  | ClientError m => m
  end.

End Monad.

(** ** [CryptoKey] and [crypto.subtle] *)

Section Handles.

Context {P : Platform}.

Inductive KeyType := public | private | secret.

Inductive KeyUsage :=
| encrypt | decrypt | wrapKey | unwrapKey | deriveKey | deriveBits
| sign | verify.

Inductive HashName := SHA_1 | SHA_256 | SHA_384 | SHA_512.

Inductive KeyAlgorithm :=
| RSA_OAEP (hash : HashName)
| AES_GCM (length : N)
| PBKDF2.

Inductive AlgorithmName := name_RSA_OAEP | name_AES_GCM | name_PBKDF2.

(** What a key handle holds. *)
Inductive KeyData :=
| RsaPublicData (k : RsaPublic)
| RsaPrivateData (k : RsaPrivate)
| RawData (k : Bytes).

Record CryptoKey := {
  type : KeyType;
  extractable : bool;
  algorithm : KeyAlgorithm;
  usages : list KeyUsage;
  data : KeyData;
}.

Record CryptoKeyPair := {
  publicKey : CryptoKey;
  privateKey : CryptoKey;
}.

Definition usage_eqb (a b : KeyUsage) : bool :=
  match a, b with
  | encrypt, encrypt | decrypt, decrypt | wrapKey, wrapKey
  | unwrapKey, unwrapKey | deriveKey, deriveKey | deriveBits, deriveBits
  | sign, sign | verify, verify => true
  | _, _ => false
  end.

Definition usage_in (u : KeyUsage) (us : list KeyUsage) : bool :=
  existsb (usage_eqb u) us.

Definition usages_within (us allowed : list KeyUsage) : bool :=
  forallb (fun u => usage_in u allowed) us.

(** The usage intersection of the standard. *)
Definition usage_intersection (us allowed : list KeyUsage) : list KeyUsage :=
  List.filter (fun u => usage_in u allowed) us.

Definition algorithm_name (k : CryptoKey) : AlgorithmName :=
  match algorithm k with
  | RSA_OAEP _ => name_RSA_OAEP
  | AES_GCM _ => name_AES_GCM
  | PBKDF2 => name_PBKDF2
  end.

Definition name_eqb (a b : AlgorithmName) : bool :=
  match a, b with
  | name_RSA_OAEP, name_RSA_OAEP | name_AES_GCM, name_AES_GCM
  | name_PBKDF2, name_PBKDF2 => true
  | _, _ => false
  end.

Definition is_nil {A} (l : list A) : bool :=
  match l with [] => true | _ => false end.

(** The key lengths of AES, and those that the platform implements. *)
Definition aes_length (bits : N) : bool :=
  (bits =? 128) || (bits =? 192) || (bits =? 256).

Definition aes_length_ok (bits : N) : bool :=
  (bits =? 128) || ((bits =? 192) && aes_192) || (bits =? 256).

Inductive KeyFormat := raw | spki | pkcs8.

End Handles.

Notation "x <- m ;; k" := (bind m (fun x => k))
  (at level 100, m at next level, right associativity).

Module subtle.

Section Subtle.

Context {P : Platform}.

(** [generateKey] for RSA-OAEP: the public key takes the usages among
    encrypt and wrapKey and is always extractable, the private key takes
    those among decrypt and unwrapKey. *)
Definition generateKey_RSA_OAEP (modulusLength : N) (publicExponent : Bytes)
    (hash : HashName) (extractable : bool) (keyUsages : list KeyUsage)
    : M CryptoKeyPair :=
  if negb (usages_within keyUsages [encrypt; decrypt; wrapKey; unwrapKey])
  then lift (throwDOM SyntaxError)
  else
    kp <- draw (rsa_generate modulusLength publicExponent) ;;
    let pub := {| type := public; extractable := true;
                  algorithm := RSA_OAEP hash;
                  usages := usage_intersection keyUsages [encrypt; wrapKey];
                  data := RsaPublicData (fst kp) |} in
    let priv := {| type := private; extractable := extractable;
                   algorithm := RSA_OAEP hash;
                   usages := usage_intersection keyUsages [decrypt; unwrapKey];
                   data := RsaPrivateData (snd kp) |} in
    if is_nil (usages priv) then lift (throwDOM SyntaxError)
    else ret {| publicKey := pub; privateKey := priv |}.

Definition generateKey_AES_GCM (length : N) (extractable : bool)
    (keyUsages : list KeyUsage) : M CryptoKey :=
  if negb (usages_within keyUsages [encrypt; decrypt; wrapKey; unwrapKey])
  then lift (throwDOM SyntaxError)
  else if negb (aes_length_ok length)
  then lift (throwOperationError (aes_length_refused length))
  else
    k <- draw (aes_generate length) ;;
    if is_nil keyUsages then lift (throwDOM SyntaxError)
    else ret {| type := secret; extractable := extractable;
                algorithm := AES_GCM length; usages := keyUsages;
                data := RawData k |}.

Definition importKey_spki_RSA_OAEP (keyData : Bytes) (hash : HashName)
    (extractable : bool) (keyUsages : list KeyUsage) : Result CryptoKey :=
  if negb (usages_within keyUsages [encrypt; wrapKey]) then throwDOM SyntaxError
  else
    match spki_import keyData with
    | None => throwDOM DataError
    | Some k =>
        Ok {| type := public; extractable := extractable;
              algorithm := RSA_OAEP hash; usages := keyUsages;
              data := RsaPublicData k |}
    end.

Definition importKey_pkcs8_RSA_OAEP (keyData : Bytes) (hash : HashName)
    (extractable : bool) (keyUsages : list KeyUsage) : Result CryptoKey :=
  if negb (usages_within keyUsages [decrypt; unwrapKey]) then throwDOM SyntaxError
  else
    match pkcs8_import keyData with
    | None => throwDOM DataError
    | Some k =>
        if is_nil keyUsages then throwDOM SyntaxError
        else
          Ok {| type := private; extractable := extractable;
                algorithm := RSA_OAEP hash; usages := keyUsages;
                data := RsaPrivateData k |}
    end.

(** [importKey('raw', ..., 'AES-GCM')]: the length of the key is that of
    the data; a length of AES that the platform does not implement is an
    [OperationError]. *)
Definition importKey_raw_AES_GCM (keyData : Bytes)
    (extractable : bool) (keyUsages : list KeyUsage) : Result CryptoKey :=
  if negb (usages_within keyUsages [encrypt; decrypt; wrapKey; unwrapKey])
  then throwDOM SyntaxError
  else
    let bits := 8 * N.of_nat (List.length keyData) in
    if negb (aes_length bits) then throwDOM DataError
    else if negb (aes_length_ok bits)
    then throwOperationError (aes_length_refused bits)
    else if is_nil keyUsages then throwDOM SyntaxError
    else
      Ok {| type := secret; extractable := extractable;
            algorithm := AES_GCM bits; usages := keyUsages;
            data := RawData keyData |}.

Definition importKey_raw_PBKDF2 (keyData : Bytes) (extractable : bool)
    (keyUsages : list KeyUsage) : Result CryptoKey :=
  if negb (usages_within keyUsages [deriveKey; deriveBits]) then throwDOM SyntaxError
  else if extractable then throwDOM SyntaxError
  else if is_nil keyUsages then throwDOM SyntaxError
  else
    Ok {| type := secret; extractable := false; algorithm := PBKDF2;
          usages := keyUsages; data := RawData keyData |}.

(** [exportKey(format, key)]: PBKDF2 has no export; then the key must
    be extractable; then the format must suit the key. *)
Definition exportKey (format : KeyFormat) (key : CryptoKey) : Result Bytes :=
  match algorithm key with
  | PBKDF2 => throwDOM NotSupportedError
  | _ =>
      if negb (extractable key) then throwDOM InvalidAccessError
      else
        match algorithm key, format, type key, data key with
        | RSA_OAEP _, spki, public, RsaPublicData k => Ok (spki_export k)
        | RSA_OAEP _, spki, _, _ => throwDOM InvalidAccessError
        | RSA_OAEP _, pkcs8, private, RsaPrivateData k => Ok (pkcs8_export k)
        | RSA_OAEP _, pkcs8, _, _ => throwDOM InvalidAccessError
        | AES_GCM _, raw, _, RawData k => Ok k
        | _, _, _, _ => throwDOM NotSupportedError
        end
  end.

(** [encrypt({ name: 'AES-GCM', iv }, key, data)]; the limits of the
    standard on the lengths of the plaintext and of the IV are beyond
    what a buffer can hold. *)
Definition encrypt_AES_GCM (iv : Bytes) (key : CryptoKey) (plaintext : Bytes)
    : Result Bytes :=
  if negb (name_eqb (algorithm_name key) name_AES_GCM)
  then throwDOM InvalidAccessError
  else if negb (usage_in encrypt (usages key)) then throwDOM InvalidAccessError
  else
    match data key with
    | RawData k => Ok (aes_gcm_encrypt k iv plaintext)
    | _ => throwOperationError key_material_missing
    end.

(** [decrypt({ name: 'AES-GCM', iv }, key, data)]: a tag that does not
    verify is an [OperationError], and so is data too short to hold a
    tag; the text tells which, where the platform words them apart. *)
Definition decrypt_AES_GCM (iv : Bytes) (key : CryptoKey) (ciphertext : Bytes)
    : Result Bytes :=
  if negb (name_eqb (algorithm_name key) name_AES_GCM)
  then throwDOM InvalidAccessError
  else if negb (usage_in decrypt (usages key)) then throwDOM InvalidAccessError
  else
    match data key with
    | RawData k =>
        match aes_gcm_decrypt k iv ciphertext with
        | Some plaintext => Ok plaintext
        | None => throwOperationError (aes_gcm_decrypt_failed k iv ciphertext)
        end
    | _ => throwOperationError key_material_missing
    end.

(** [deriveKey({ name: 'PBKDF2', salt, iterations, hash: 'SHA-256' },
    baseKey, { name: 'AES-GCM', length }, extractable, usages)] *)
Definition deriveKey_PBKDF2_AES_GCM (salt : Bytes) (iterations : N)
    (baseKey : CryptoKey) (length : N) (extractable : bool)
    (keyUsages : list KeyUsage) : Result CryptoKey :=
  if negb (name_eqb (algorithm_name baseKey) name_PBKDF2)
  then throwDOM InvalidAccessError
  else if negb (usage_in deriveKey (usages baseKey))
  then throwDOM InvalidAccessError
  else if negb (aes_length_ok length)
  then throwOperationError (aes_length_refused length)
  else if iterations =? 0 then throwOperationError pbkdf2_iterations_refused
  else
    match data baseKey with
    | RawData password =>
        let secret := pbkdf2_sha256 password salt iterations length in
        importKey_raw_AES_GCM secret extractable keyUsages
    | _ => throwOperationError key_material_missing
    end.

(** [wrapKey('raw', key, wrappingKey, { name: 'RSA-OAEP' })] *)
Definition wrapKey_raw_RSA_OAEP (key wrappingKey : CryptoKey) : M Bytes :=
  if negb (name_eqb (algorithm_name wrappingKey) name_RSA_OAEP)
  then lift (throwDOM InvalidAccessError)
  else if negb (usage_in wrapKey (usages wrappingKey))
  then lift (throwDOM InvalidAccessError)
  else
    exported <- lift (exportKey raw key) ;;
    match type wrappingKey, data wrappingKey with
    | public, RsaPublicData k =>
        c <- draw (rsa_oaep_encrypt k exported) ;;
        match c with
        | Some c => ret c
        | None => lift (throwOperationError (rsa_oaep_encrypt_failed exported))
        end
    | _, _ => lift (throwDOM InvalidAccessError)
    end.

(** [unwrapKey('raw', wrapped, unwrappingKey, { name: 'RSA-OAEP' },
    { name: 'AES-GCM', length }, extractable, usages)]; importing raw
    bytes reads no [length]. *)
Definition unwrapKey_raw_RSA_OAEP_AES_GCM (wrappedKey : Bytes)
    (unwrappingKey : CryptoKey) (length : N) (extractable : bool)
    (keyUsages : list KeyUsage) : Result CryptoKey :=
  if negb (name_eqb (algorithm_name unwrappingKey) name_RSA_OAEP)
  then throwDOM InvalidAccessError
  else if negb (usage_in unwrapKey (usages unwrappingKey))
  then throwDOM InvalidAccessError
  else
    match type unwrappingKey, data unwrappingKey with
    | private, RsaPrivateData k =>
        match rsa_oaep_decrypt k wrappedKey with
        | Some bytes =>
            importKey_raw_AES_GCM bytes extractable keyUsages
        | None => throwOperationError (rsa_oaep_decrypt_failed wrappedKey)
        end
    | _, _ => throwDOM InvalidAccessError
    end.

Definition digest_SHA_256 (data : Bytes) : Bytes := sha256 data.

End Subtle.

End subtle.

(** ** encryption.ts: keys, vault, file cipher and key wrapper *)

Section Encryption.

Context {P : Platform}.

Definition generateUserKeypair : M CryptoKeyPair :=
  subtle.generateKey_RSA_OAEP 4096 [x01; x00; x01] SHA_256
    true
    [encrypt; decrypt; wrapKey; unwrapKey].

Definition exportPublicKey (publicKey : CryptoKey) : Result JSString :=
  let? exported := subtle.exportKey spki publicKey in
  arrayBufferToBase64 exported.

Definition exportPrivateKey (privateKey : CryptoKey) : Result JSString :=
  let? exported := subtle.exportKey pkcs8 privateKey in
  arrayBufferToBase64 exported.

Definition importPublicKey (base64Key : JSString) : Result CryptoKey :=
  let? keyBuffer := base64ToArrayBuffer base64Key in
  subtle.importKey_spki_RSA_OAEP keyBuffer SHA_256 true [encrypt; wrapKey].

Definition importPrivateKey (base64Key : JSString) : Result CryptoKey :=
  let? keyBuffer := base64ToArrayBuffer base64Key in
  subtle.importKey_pkcs8_RSA_OAEP keyBuffer SHA_256 true [decrypt; unwrapKey].

Definition deriveKeyFromPassphrase (passphrase : JSString) (salt : Bytes)
    : Result CryptoKey :=
  let? keyMaterial :=
    subtle.importKey_raw_PBKDF2 (TextEncoder_encode passphrase)
      false
      [deriveBits; deriveKey] in
  subtle.deriveKey_PBKDF2_AES_GCM salt 100000 keyMaterial 256
    false
    [encrypt; decrypt].

Definition encryptPrivateKey (privateKey : CryptoKey) (passphrase : JSString)
    : M SealedPrivateKey :=
  salt <- draw (getRandomValues 16) ;;
  iv <- draw (getRandomValues 12) ;;
  derivedKey <- lift (deriveKeyFromPassphrase passphrase salt) ;;
  privateKeyBuffer <- lift (subtle.exportKey pkcs8 privateKey) ;;
  encryptedBuffer <-
    lift (subtle.encrypt_AES_GCM iv derivedKey privateKeyBuffer) ;;
  encryptedKey64 <- lift (arrayBufferToBase64 encryptedBuffer) ;;
  salt64 <- lift (arrayBufferToBase64 salt) ;;
  iv64 <- lift (arrayBufferToBase64 iv) ;;
  ret {| encryptedKey := encryptedKey64; salt := salt64; iv := iv64 |}.

Definition decryptPrivateKey (encryptedKey salt iv passphrase : JSString)
    : Result CryptoKey :=
  let? saltBuffer := base64ToArrayBuffer salt in
  let? ivBuffer := base64ToArrayBuffer iv in
  let? encryptedBuffer := base64ToArrayBuffer encryptedKey in
  let? derivedKey := deriveKeyFromPassphrase passphrase saltBuffer in
  let? decryptedBuffer :=
    subtle.decrypt_AES_GCM ivBuffer derivedKey encryptedBuffer in
  subtle.importKey_pkcs8_RSA_OAEP decryptedBuffer SHA_256
    true
    [decrypt; unwrapKey].

Definition generateFileEncryptionKey : M CryptoKey :=
  subtle.generateKey_AES_GCM 256 true [encrypt; decrypt].

(** The file and the blobs are their bytes. *)
Definition encryptFile (file : Bytes) (key : CryptoKey)
    : M (Bytes * JSString) :=
  iv <- draw (getRandomValues 12) ;;
  let fileBuffer := file in
  encryptedBuffer <- lift (subtle.encrypt_AES_GCM iv key fileBuffer) ;;
  iv64 <- lift (arrayBufferToBase64 iv) ;;
  ret (encryptedBuffer, iv64).

Definition decryptFile (encryptedBlob : Bytes) (key : CryptoKey) (iv : JSString)
    : Result Bytes :=
  let encryptedBuffer := encryptedBlob in
  let? ivBuffer := base64ToArrayBuffer iv in
  let? decryptedBuffer :=
    subtle.decrypt_AES_GCM ivBuffer key encryptedBuffer in
  Ok decryptedBuffer.

Definition wrapSymmetricKey (symmetricKey publicKey : CryptoKey) : M JSString :=
  wrappedKey <- subtle.wrapKey_raw_RSA_OAEP symmetricKey publicKey ;;
  lift (arrayBufferToBase64 wrappedKey).

Definition unwrapSymmetricKey (wrappedKey : JSString) (privateKey : CryptoKey)
    : Result CryptoKey :=
  let? wrappedKeyBuffer := base64ToArrayBuffer wrappedKey in
  subtle.unwrapKey_raw_RSA_OAEP_AES_GCM wrappedKeyBuffer privateKey 256
    true
    [encrypt; decrypt].

Definition calculateFileChecksum (file : Bytes) : Result JSString :=
  let buffer := file in
  let hashBuffer := subtle.digest_SHA_256 buffer in
  arrayBufferToBase64 hashBuffer.

End Encryption.

(** ** FileList.tsx: the download flow *)

Module FileList.

Module EncryptedFile.
Record t := {
  id : JSString;
  filename : JSString;
  file_size : N;
  mime_type : JSString;
  encrypted_symmetric_key : JSString;
  iv : JSString;
  storage_path : JSString;
  created_at : JSString;
}.
End EncryptedFile.

(** What [maybeSingle] answers: a row, no row, or an error. *)
Inductive MaybeSingle (A : Type) :=
| Row (data : A)
| NoRow
| QueryError (message : string).
Arguments Row {A} data.
Arguments NoRow {A}.
Arguments QueryError {A} message.

(** What a storage download answers. *)
Inductive Download :=
| Blob (data : Bytes)
| DownloadError (message : string).

(** The component's state and its collaborators. *)
Record World := {
  user : option JSString;
  selectedFile : option EncryptedFile.t;
  (** [user_keys.encrypted_private_key] of a user *)
  user_keys : JSString -> MaybeSingle JSString;
  (** the bucket [encrypted-files] *)
  storage : JSString -> Download;
}.

(** What an execution does, in order: the calls to the collaborators and
    to the engine, and what the user sees. *)
Inductive Event :=
| setDecrypting (id : option JSString)
| select_encrypted_private_key (user_id : JSString)
| call_decryptPrivateKey
| download (path : JSString)
| call_unwrapSymmetricKey
| call_decryptFile
| save_file (filename : JSString) (content : Bytes)
| toast (title : string)
| console_error (e : JsError).

(** A computation with its trace. *)
Definition H (A : Type) : Type := list Event * Result A.

Definition hret {A} (a : A) : H A := ([], Ok a).
Definition hthrow {A} (e : JsError) : H A := ([], Throw e).
Definition tell (ev : Event) : H unit := ([ev], Ok tt).
Definition hlift {A} (r : Result A) : H A := ([], r).

Definition hbind {A B} (m : H A) (k : A -> H B) : H B :=
  match m with
  | (t, Ok a) => let (t', r) := k a in (t ++ t', r)
  | (t, Throw e) => (t, Throw e)
  end.

Notation "x <~ m ;; k" := (hbind m (fun x => k))
  (at level 100, m at next level, right associativity).
Notation "m ;;; k" := (hbind m (fun _ => k))
  (at level 100, right associativity).

(** [try { body } catch (error) { handler }] *)
Definition try_catch {A} (body : H A) (handler : JsError -> H A) : H A :=
  match body with
  | (t, Ok a) => (t, Ok a)
  | (t, Throw e) => let (t', r) := handler e in (t ++ t', r)
  end.

(** [try { body } finally { final }], for a [final] that does not throw. *)
Definition try_finally {A} (body : H A) (final : H unit) : H A :=
  let (t, r) := body in (t ++ fst final, r).

Section HandleDecrypt.

Context {P : Platform}.

(** The [catch] block of [handleDecrypt]. *)
Definition on_error (error : JsError) : H unit :=
  tell (console_error error) ;;;
  if includes (message error) "OperationError"
     || includes (message error) "decrypt"
  then hthrow (Error "Invalid passphrase. Please try again.")
  else hthrow error.

Definition handleDecrypt (w : World) (passphrase : JSString) : H unit :=
  match user w, selectedFile w with
  | Some user_id, Some selectedFile =>
      tell (setDecrypting (Some (EncryptedFile.id selectedFile))) ;;;
      try_finally
        (try_catch
           (tell (select_encrypted_private_key user_id) ;;;
            keyData <~
              match user_keys w user_id with
              | QueryError keyError => hthrow (ClientError keyError)
              | NoRow =>
                  hthrow (Error "Encryption keys not found. Please set up your keys first.")
              | Row encrypted_private_key => hret encrypted_private_key
              end ;;
            sealed <~ hlift (JSON_parse keyData) ;;
            tell call_decryptPrivateKey ;;;
            privateKey <~
              hlift (decryptPrivateKey (encryptedKey sealed) (salt sealed)
                       (iv sealed) passphrase) ;;
            tell (download (EncryptedFile.storage_path selectedFile)) ;;;
            encryptedBlob <~
              match storage w (EncryptedFile.storage_path selectedFile) with
              | DownloadError downloadError =>
                  hthrow (ClientError downloadError)
              | Blob b => hret b
              end ;;
            tell call_unwrapSymmetricKey ;;;
            symmetricKey <~
              hlift (unwrapSymmetricKey
                       (EncryptedFile.encrypted_symmetric_key selectedFile)
                       privateKey) ;;
            tell call_decryptFile ;;;
            decryptedBlob <~
              hlift (decryptFile encryptedBlob symmetricKey
                       (EncryptedFile.iv selectedFile)) ;;
            tell (save_file (EncryptedFile.filename selectedFile)
                    decryptedBlob) ;;;
            tell (toast "File decrypted and downloaded"))
           on_error)
        (tell (setDecrypting None))
  | _, _ => hret tt
  end.

End HandleDecrypt.

End FileList.

(** ** What the engine assumes of the platform *)

Section Laws.

Context (P : Platform).

(** Decrypting what was encrypted, with the same key and IV, verifies and
    gives the plaintext back. *)
Definition aead_correct : Prop :=
  forall k iv m, aes_gcm_decrypt k iv (aes_gcm_encrypt k iv m) = Some m.

(** PBKDF2 returns as many bits as were asked for. *)
Definition pbkdf2_length : Prop :=
  forall password salt iterations,
    length (pbkdf2_sha256 password salt iterations 256) = 32%nat.

Definition pkcs8_roundtrip : Prop :=
  forall k, pkcs8_import (pkcs8_export k) = Some k.

(** Idealised: what was encrypted under one 256-bit key does not verify
    under another. AES-GCM gives this for a pair of keys up to a chance of
    2^-128, not outright; the statements that rest on it name it. *)
Definition aead_rejects_other_keys : Prop :=
  forall k k' iv m,
    length k = 32%nat -> length k' = 32%nat -> k <> k' ->
    aes_gcm_decrypt k' iv (aes_gcm_encrypt k iv m) = None.

(** The two halves of a generated 4096-bit pair undo each other on every
    message that fits under OAEP with SHA-256 (at most 446 bytes). *)
Definition generated_pair (pub : RsaPublic) (priv : RsaPrivate) : Prop :=
  exists e e', rsa_generate 4096 [x01; x00; x01] e = ((pub, priv), e').

Definition rsa_oaep_correct : Prop :=
  forall pub priv, generated_pair pub priv ->
    forall m r, (length m <= 446)%nat ->
      exists c, fst (rsa_oaep_encrypt pub m r) = Some c
                /\ rsa_oaep_decrypt priv c = Some m.

End Laws.

(** ** The keys of the application *)

Section Keys.

Context {P : Platform}.

(** A symmetric key that AES-GCM may both encrypt and decrypt with: the
    file keys and the passphrase-derived keys are all of this kind. *)
Definition aes_gcm_key (k : CryptoKey) : Prop :=
  algorithm_name k = name_AES_GCM
  /\ usage_in encrypt (usages k) = true
  /\ usage_in decrypt (usages k) = true
  /\ exists raw_key, data k = RawData raw_key.

(** A file encryption key, as [generateFileEncryptionKey] and
    [unwrapSymmetricKey] make them. *)
Definition file_key (raw_key : Bytes) : CryptoKey :=
  {| type := secret; extractable := true; algorithm := AES_GCM 256;
     usages := [encrypt; decrypt]; data := RawData raw_key |}.

(** The private key of a user, as the keypair manager makes it. *)
Definition user_private_key (k : RsaPrivate) : CryptoKey :=
  {| type := private; extractable := true; algorithm := RSA_OAEP SHA_256;
     usages := [decrypt; unwrapKey]; data := RsaPrivateData k |}.

(** A public key that may wrap, and a private key that may unwrap. *)
Definition wrapping_key (k : CryptoKey) (pub : RsaPublic) : Prop :=
  type k = public /\ algorithm_name k = name_RSA_OAEP
  /\ usage_in wrapKey (usages k) = true /\ data k = RsaPublicData pub.

Definition unwrapping_key (k : CryptoKey) (priv : RsaPrivate) : Prop :=
  type k = private /\ algorithm_name k = name_RSA_OAEP
  /\ usage_in unwrapKey (usages k) = true /\ data k = RsaPrivateData priv.

(** The keys that the keypair manager hands out, by role. *)
Inductive handed_out : KeyType -> CryptoKey -> Prop :=
| generated_public e kp e' :
    generateUserKeypair e = (Ok kp, e') -> handed_out public (publicKey kp)
| imported_public base64Key k :
    importPublicKey base64Key = Ok k -> handed_out public k
| generated_private e kp e' :
    generateUserKeypair e = (Ok kp, e') -> handed_out private (privateKey kp)
| imported_private base64Key k :
    importPrivateKey base64Key = Ok k -> handed_out private k
| unsealed_private encryptedKey salt iv passphrase k :
    decryptPrivateKey encryptedKey salt iv passphrase = Ok k ->
    handed_out private k.

(** The usages of a role. *)
Definition role_usages (role : KeyType) : list KeyUsage :=
  match role with
  | public => [encrypt; wrapKey]
  | private => [decrypt; unwrapKey]
  | secret => [encrypt; decrypt]
  end.

(** The key the vault decrypts with, and whether its tag check passes. *)
Definition derived_raw_key (passphrase : JSString) (salt : Bytes) : Bytes :=
  pbkdf2_sha256 (TextEncoder_encode passphrase) salt 100000 256.

Definition derived_key (passphrase : JSString) (salt : Bytes) : CryptoKey :=
  {| type := secret; extractable := false; algorithm := AES_GCM 256;
     usages := [encrypt; decrypt];
     data := RawData (derived_raw_key passphrase salt) |}.

End Keys.

(** The text that forgiving-base64 decoding looks at, and when it is
    malformed. *)
Definition base64_payload (s : JSString) : JSString :=
  Base64.strip_padding
    (List.filter (fun c => negb (Base64.ascii_whitespace c)) s).

Definition malformed_base64 (s : JSString) : Prop :=
  (length (base64_payload s) mod 4 = 1)%nat
  \/ Exists (fun c => Base64.in_alphabet c = false) (base64_payload s).

(** ** A deterministic platform

    A stand-in for the browser with no cryptographic strength: it counts
    instead of drawing randomness, tags a ciphertext with the key and the
    IV, and names an RSA pair by four bytes; it words a failed decryption
    as Chromium does and, like Chromium, has no AES keys of 192 bits. It
    runs the engine on concrete inputs. *)

Module Stub.

Fixpoint bytes_eqb (a b : Bytes) : bool :=
  match a, b with
  | [], [] => true
  | x :: a', y :: b' => Byte.eqb x y && bytes_eqb a' b'
  | _, _ => false
  end.

Definition getRandomValues (n : nat) (e : N) : Bytes * N :=
  (map (fun i => u8 (e + N.of_nat i)) (seq 0 n), e + N.of_nat n).

Definition aes_gcm_encrypt (k iv m : Bytes) : Bytes := m ++ k ++ iv.

Definition aes_gcm_decrypt (k iv c : Bytes) : option Bytes :=
  let n := (length c - length (k ++ iv))%nat in
  if bytes_eqb (drop n c) (k ++ iv) then Some (take n c) else None.

Definition aes_generate (bits : N) (e : N) : Bytes * N :=
  getRandomValues (N.to_nat (bits / 8)) e.

(** A weighted sum of the bytes, one weight per byte of output. *)
Fixpoint weighted (w : N) (input : Bytes) : N :=
  match input with
  | [] => 0
  | b :: rest => w * Byte.to_N b + weighted (w + 1) rest
  end.

Definition pbkdf2_sha256 (password salt : Bytes) (iterations bits : N) : Bytes :=
  map (fun i => u8 (weighted (N.of_nat i + 1) (password ++ salt)))
    (seq 0 (N.to_nat (bits / 8))).

Definition rsa_generate (modulusLength : N) (publicExponent : Bytes) (e : N)
    : (Bytes * Bytes) * N :=
  let (name, e') := getRandomValues 4 e in ((name, name), e').

Definition rsa_oaep_encrypt (pub m : Bytes) (e : N) : option Bytes * N :=
  if (length m <=? 446)%nat then (Some (pub ++ m), e) else (None, e).

Definition rsa_oaep_decrypt (priv c : Bytes) : option Bytes :=
  if bytes_eqb (take (length priv) c) priv
  then Some (drop (length priv) c)
  else None.

Definition dom_message (n : DOMExceptionName) : string :=
  match n with
  | OperationError text => text
  | _ => ""
  end.

(** The texts of Chromium for a failed AES-GCM decryption: one for data
    shorter than a tag of sixteen bytes, none for a tag that does not
    verify; and its text for the key length it does not implement. *)
Definition operation_message (f : Failure) : string :=
  match f with
  | aes_gcm_decrypt_failed _ _ data =>
      if (length data <? 16)%nat then "The provided data is too small"
      else ""
  | aes_length_refused _ => "192-bit AES keys are not supported"
  | _ => ""
  end.

(** The three fields, separated by commas. *)
Definition JSON_stringify (s : SealedPrivateKey) : JSString :=
  encryptedKey s ++ [44] ++ salt s ++ [44] ++ iv s.

Fixpoint split_on (sep : N) (s : JSString) : list JSString :=
  match s with
  | [] => [[]]
  | c :: rest =>
      if c =? sep then [] :: split_on sep rest
      else
        match split_on sep rest with
        | w :: ws => (c :: w) :: ws
        | [] => [[c]]
        end
  end.

Definition JSON_parse (s : JSString) : Result SealedPrivateKey :=
  match split_on 44 s with
  | [a; b; c] => Ok {| encryptedKey := a; salt := b; iv := c |}
  | _ => Throw (Error "Unexpected token")
  end.

Definition platform : Platform :=
  Build_Platform N Bytes Bytes
    getRandomValues
    aes_gcm_encrypt aes_gcm_decrypt aes_generate false
    pbkdf2_sha256
    rsa_generate rsa_oaep_encrypt rsa_oaep_decrypt
    (fun k => k) (fun b => Some b)
    (fun k => k) (fun b => Some b)
    (fun b => take 32 (b ++ replicate 32 x00))
    dom_message operation_message
    JSON_stringify JSON_parse.

End Stub.

(** ** Notions of the statements *)

Section Notions.

Context {P : Platform}.

(** The decryption of an unseal fails: with the stored salt and IV, the
    key derived from the passphrase does not authenticate the stored
    ciphertext, and [text] is what the platform says of it. *)
Definition tag_rejects (sealed : SealedPrivateKey) (passphrase : JSString)
    (text : string) : Prop :=
  exists saltBuffer ivBuffer encryptedBuffer,
    base64ToArrayBuffer (salt sealed) = Ok saltBuffer
    /\ base64ToArrayBuffer (iv sealed) = Ok ivBuffer
    /\ base64ToArrayBuffer (encryptedKey sealed) = Ok encryptedBuffer
    /\ aes_gcm_decrypt (derived_raw_key passphrase saltBuffer) ivBuffer
         encryptedBuffer = None
    /\ text
       = operation_message
           (aes_gcm_decrypt_failed (derived_raw_key passphrase saltBuffer)
              ivBuffer encryptedBuffer).

(** The decryption of a file under a 256-bit file key fails, be the key
    wrong or the ciphertext altered or cut, and [text] is what the
    platform says of it. *)
Definition tag_check_fails (blob raw_key : Bytes) (iv : JSString)
    (text : string) : Prop :=
  length raw_key = 32%nat
  /\ exists ivBuffer,
       base64ToArrayBuffer iv = Ok ivBuffer
       /\ aes_gcm_decrypt raw_key ivBuffer blob = None
       /\ text
          = operation_message (aes_gcm_decrypt_failed raw_key ivBuffer blob).

(** The passphrase derives another key than the one the record was sealed
    with, under the salt of the record. *)
Definition derives_another_key (sealed : SealedPrivateKey)
    (p1 p2 : JSString) : Prop :=
  exists saltBuffer,
    base64ToArrayBuffer (salt sealed) = Ok saltBuffer
    /\ derived_raw_key p1 saltBuffer <> derived_raw_key p2 saltBuffer.

(** The key cannot serve the other role. *)
Definition cannot_unwrap (k : CryptoKey) : Prop :=
  forall wrappedKey length extractable keyUsages,
    subtle.unwrapKey_raw_RSA_OAEP_AES_GCM wrappedKey k length extractable
      keyUsages
    = Throw (DOMException InvalidAccessError).

Definition cannot_wrap (k : CryptoKey) : Prop :=
  forall key e,
    subtle.wrapKey_raw_RSA_OAEP key k e
    = (Throw (DOMException InvalidAccessError), e).

(** The raw bytes of the key cannot leave the platform. *)
Definition never_exported (k : CryptoKey) : Prop :=
  (forall format,
     subtle.exportKey format k = Throw (DOMException InvalidAccessError))
  /\ (forall wrappingKey e,
        subtle.wrapKey_raw_RSA_OAEP k wrappingKey e
        = (Throw (DOMException InvalidAccessError), e)).

End Notions.

Module Flow.

Import FileList.

Section Flow.

Context {P : Platform}.

(** The events that touch the file: its ciphertext, its key, its content. *)
Definition file_access (ev : Event) : bool :=
  match ev with
  | download _ | call_unwrapSymmetricKey | call_decryptFile | save_file _ _ =>
      true
  | _ => false
  end.

(** What the [catch] block of [handleDecrypt] takes for a wrong
    passphrase: a text that names "OperationError" or "decrypt". *)
Definition taken_for_passphrase (text : string) : bool :=
  includes text "OperationError" || includes text "decrypt".

(** In a trace, [x] comes strictly before every [y]. *)
Definition precedes (x y : Event) (t : list Event) : Prop :=
  forall pre post, t = pre ++ y :: post -> In x pre.

(** The flow has a user, a selected file and a stored sealed key. *)
Definition stored_key (w : World) (f : EncryptedFile.t)
    (sealed : SealedPrivateKey) : Prop :=
  exists user_id keyData,
    user w = Some user_id /\ selectedFile w = Some f
    /\ user_keys w user_id = Row keyData
    /\ JSON_parse keyData = Ok sealed.

(** The flow gets as far as [decryptFile], with this blob and this key. *)
Definition reaches_decryptFile (w : World) (passphrase : JSString)
    (f : EncryptedFile.t) (blob : Bytes) (key : CryptoKey) : Prop :=
  exists sealed privateKey,
    stored_key w f sealed
    /\ decryptPrivateKey (encryptedKey sealed) (salt sealed) (iv sealed)
         passphrase = Ok privateKey
    /\ storage w (EncryptedFile.storage_path f) = Blob blob
    /\ unwrapSymmetricKey (EncryptedFile.encrypted_symmetric_key f) privateKey
       = Ok key.

End Flow.

End Flow.

(** ** A scenario on the deterministic platform

    One user, one stored file: the keys, the sealed key and the ciphertext
    are what the engine computes there. *)

Module Demo.

#[local] Existing Instance Stub.platform.

Definition get {A} (default : A) (r : Result A) : A :=
  match r with
  | Ok a => a
  | Throw _ => default
  end.

Definition passphrase : JSString :=
  lit "correct-horse-battery-staple-quantum-cipher".

(** One character off. *)
Definition wrong_passphrase : JSString :=
  lit "correct-horse-battery-staple-quantum-ciphex".

Definition pair_name : Bytes := [x00; x01; x02; x03].

Definition publicKey : CryptoKey :=
  {| type := public; extractable := true; algorithm := RSA_OAEP SHA_256;
     usages := [encrypt; wrapKey]; data := RsaPublicData pair_name |}.

Definition privateKey : CryptoKey := user_private_key pair_name.

Definition sealed : SealedPrivateKey :=
  Eval vm_compute in
    get {| encryptedKey := []; salt := []; iv := [] |}
      (fst (encryptPrivateKey privateKey passphrase 4)).

Definition message : Bytes := [x68; x65; x6c; x6c; x6f].

Definition raw_key : Bytes := Eval vm_compute in replicate 32 x2a.
Definition other_raw_key : Bytes := Eval vm_compute in replicate 32 x07.

Definition encrypted : Bytes * JSString :=
  Eval vm_compute in
    get ([], []) (fst (encryptFile message (file_key raw_key) 100)).

(** The ciphertext with its last byte altered. *)
Definition altered : Bytes :=
  Eval vm_compute in
    take (length (fst encrypted) - 1) (fst encrypted) ++ [xff].

Definition wrapped : JSString :=
  Eval vm_compute in
    get [] (fst (wrapSymmetricKey (file_key raw_key) publicKey 200)).

Definition wrapped_other : JSString :=
  Eval vm_compute in
    get [] (fst (wrapSymmetricKey (file_key other_raw_key) publicKey 300)).

Definition file : FileList.EncryptedFile.t :=
  {| FileList.EncryptedFile.id := lit "file-1";
     FileList.EncryptedFile.filename := lit "notes.txt";
     FileList.EncryptedFile.file_size := 5;
     FileList.EncryptedFile.mime_type := lit "text/plain";
     FileList.EncryptedFile.encrypted_symmetric_key := wrapped;
     FileList.EncryptedFile.iv := snd encrypted;
     FileList.EncryptedFile.storage_path := lit "user-1/notes.txt1700000000000";
     FileList.EncryptedFile.created_at := lit "2024-01-01T00:00:00Z" |}.

(** The same record with another file's key in it. *)
Definition file_with_other_key : FileList.EncryptedFile.t :=
  {| FileList.EncryptedFile.id := lit "file-1";
     FileList.EncryptedFile.filename := lit "notes.txt";
     FileList.EncryptedFile.file_size := 5;
     FileList.EncryptedFile.mime_type := lit "text/plain";
     FileList.EncryptedFile.encrypted_symmetric_key := wrapped_other;
     FileList.EncryptedFile.iv := snd encrypted;
     FileList.EncryptedFile.storage_path := lit "user-1/notes.txt1700000000000";
     FileList.EncryptedFile.created_at := lit "2024-01-01T00:00:00Z" |}.

Definition world_of (f : FileList.EncryptedFile.t) (blob : Bytes)
    : FileList.World :=
  {| FileList.user := Some (lit "user-1");
     FileList.selectedFile := Some f;
     FileList.user_keys := fun _ => FileList.Row (JSON_stringify sealed);
     FileList.storage := fun _ => FileList.Blob blob |}.

Definition world : FileList.World := world_of file (fst encrypted).
Definition world_wrong_key : FileList.World :=
  world_of file_with_other_key (fst encrypted).
Definition world_altered : FileList.World := world_of file altered.

(** The ciphertext cut to three bytes, too short to hold a tag. *)
Definition truncated : Bytes := Eval vm_compute in take 3 (fst encrypted).

Definition world_truncated : FileList.World := world_of file truncated.

(** Two passphrases of twelve unpaired surrogates each, U+D800 and
    U+D801: different strings with the same UTF-8 bytes. *)
Definition surrogates_1 : JSString := Eval vm_compute in replicate 12 0xD800.
Definition surrogates_2 : JSString := Eval vm_compute in replicate 12 0xD801.

(** The private key sealed under the first of them, and a user whose
    stored key it is. *)
Definition sealed_surrogates : SealedPrivateKey :=
  Eval vm_compute in
    get {| encryptedKey := []; salt := []; iv := [] |}
      (fst (encryptPrivateKey privateKey surrogates_1 4)).

Definition world_surrogates : FileList.World :=
  {| FileList.user := Some (lit "user-1");
     FileList.selectedFile := Some file;
     FileList.user_keys :=
       fun _ => FileList.Row (JSON_stringify sealed_surrogates);
     FileList.storage := fun _ => FileList.Blob (fst encrypted) |}.

End Demo.

(** ** More that the engine assumes of the platform *)

Section MoreLaws.

Context (P : Platform).

Definition spki_roundtrip : Prop :=
  forall k, spki_import (spki_export k) = Some k.

(** [crypto.getRandomValues] fills the array it is given. *)
Definition random_length : Prop :=
  forall n e, length (fst (getRandomValues n e)) = n.

(** A generated AES key has the length asked for. *)
Definition aes_generate_length : Prop :=
  forall e, length (fst (aes_generate 256 e)) = 32%nat.

(** What [JSON.stringify] writes of three base64 texts, [JSON.parse]
    reads back. *)
Definition json_roundtrip : Prop :=
  forall a b c : Bytes,
    JSON_parse
      (JSON_stringify {| encryptedKey := Base64.encode a;
                         salt := Base64.encode b;
                         iv := Base64.encode c |})
    = Ok {| encryptedKey := Base64.encode a;
            salt := Base64.encode b;
            iv := Base64.encode c |}.

End MoreLaws.

(** [a === b] and [a !== b] on strings. *)
Fixpoint string_eqb (a b : JSString) : bool :=
  match a, b with
  | [], [] => true
  | x :: a', y :: b' => (x =? y) && string_eqb a' b'
  | _, _ => false
  end.

(** [words.join(sep)] *)
Fixpoint join (sep : JSString) (words : list JSString) : JSString :=
  match words with
  | [] => []
  | [w] => w
  | w :: rest => w ++ sep ++ join sep rest
  end.

(** [file.name + Date.now()]: the number in decimal. *)
Definition decimal (n : N) : JSString :=
  lit (DecimalString.NilZero.string_of_uint (N.to_uint n)).

(** ** encryption.ts: the passphrase generator *)

Section Passphrase.

Context {P : Platform}.

Definition wordList : list JSString :=
  map lit
    ["correct"; "horse"; "battery"; "staple"; "quantum"; "cipher";
     "secure"; "encrypt"; "shield"; "vault"; "fortress"; "guardian";
     "phoenix"; "thunder"; "shadow"; "crystal"; "dragon"; "forest";
     "mountain"; "river"; "sunset"; "ocean"; "galaxy"; "cosmos"]%string.

(** The element of [new Uint32Array(1)] that [crypto.getRandomValues]
    has filled: its bytes, the least significant first. *)
Definition uint32_of_bytes (b : Bytes) : N :=
  fold_right (fun x acc => Byte.to_N x + 256 * acc) 0 b.

Definition random_uint32 (e : Entropy) : N * Entropy :=
  let (b, e') := getRandomValues 4 e in (uint32_of_bytes b, e').

(** The loop: [wordCount - i] rounds are left and [words] are pushed. *)
Fixpoint passphrase_loop (rounds : nat) (words : list JSString) (e : Entropy)
    : list JSString * Entropy :=
  match rounds with
  | O => (words, e)
  | S rounds' =>
      let (r, e') := random_uint32 e in
      let randomIndex := r mod N.of_nat (length wordList) in
      passphrase_loop rounds'
        (words ++ [nth (N.to_nat randomIndex) wordList []]) e'
  end.

(** [wordCount] is a count: a whole number that is not negative. *)
Definition generateSecurePassphrase (wordCount : nat) (e : Entropy)
    : JSString * Entropy :=
  let (words, e') := passphrase_loop wordCount [] e in
  (join (lit "-") words, e').

End Passphrase.

(** ** Handlers: state, exceptions, [try], [catch] and [finally] *)

Definition ST (S A : Type) : Type := S -> Result A * S.

Definition st_ret {S A} (a : A) : ST S A := fun s => (Ok a, s).

Definition st_throw {S A} (x : JsError) : ST S A := fun s => (Throw x, s).

Definition st_lift {S A} (r : Result A) : ST S A := fun s => (r, s).

Definition st_modify {S} (f : S -> S) : ST S unit := fun s => (Ok tt, f s).

Definition st_bind {S A B} (m : ST S A) (k : A -> ST S B) : ST S B :=
  fun s =>
    match m s with
    | (Ok a, s') => k a s'
    | (Throw x, s') => (Throw x, s')
    end.

Definition st_try_catch {S A} (body : ST S A) (handler : JsError -> ST S A)
    : ST S A :=
  fun s =>
    match body s with
    | (Ok a, s') => (Ok a, s')
    | (Throw x, s') => handler x s'
    end.

(** For a [final] that does not throw. *)
Definition st_try_finally {S A} (body : ST S A) (final : S -> S) : ST S A :=
  fun s => let (r, s') := body s in (r, final s').

Notation "x <== m ;; k" := (st_bind m (fun x => k))
  (at level 100, m at next level, right associativity).
Notation "m >>> k" := (st_bind m (fun _ => k))
  (at level 100, right associativity).

(** ** KeySetup.tsx: creating the keys of an account *)

Module KeySetup.

Record UserKeysRow := {
  user_id : JSString;
  public_key : JSString;
  encrypted_private_key : JSString;
  key_algorithm : JSString;
}.

Inductive Event :=
| toast (title description : string)
| setLoading (loading : bool)
| insert (row : UserKeysRow)
| onComplete
| console_error (e : JsError).

(** The form and the collaborators. *)
Record World := {
  user : option JSString;
  passphrase : JSString;
  confirmPassphrase : JSString;
  (** the error, if any, of the insert into [user_keys] *)
  insert_error : UserKeysRow -> option string;
}.

Section Handlers.

Context {P : Platform}.

(** The entropy and what has happened so far. *)
Definition State : Type := Entropy * list Event.

Definition emit (ev : Event) : ST State unit :=
  st_modify (fun s => (fst s, snd s ++ [ev])).

Definition await {A} (m : M A) : ST State A :=
  fun s => let (r, e') := m (fst s) in (r, (e', snd s)).

(** [handleGeneratePassphrase]: the new passphrase, the cleared
    confirmation, and the toast. *)
Definition handleGeneratePassphrase (w : World) (e : Entropy)
    : World * list Event * Entropy :=
  let (generated, e') := generateSecurePassphrase 6 e in
  ({| user := user w;
      passphrase := generated;
      confirmPassphrase := [];
      insert_error := insert_error w |},
   [toast "Passphrase generated"
      "Please save this passphrase securely. You'll need it to access your files."],
   e').

Definition handleSetupKeys (w : World) : ST State unit :=
  match user w with
  | None => st_ret tt
  | Some user_id =>
      if negb (string_eqb (passphrase w) (confirmPassphrase w)) then
        emit (toast "Passphrases don't match"
                "Please make sure both passphrases are identical.")
      else if (length (passphrase w) <? 12)%nat then
        emit (toast "Passphrase too short"
                "Please use at least 12 characters for security.")
      else
        emit (setLoading true) >>>
        st_try_finally
          (st_try_catch
             (keyPair <== await generateUserKeypair ;;
              publicKeyBase64 <== st_lift (exportPublicKey (publicKey keyPair)) ;;
              sealed <==
                await (encryptPrivateKey (privateKey keyPair) (passphrase w)) ;;
              let row :=
                {| user_id := user_id;
                   public_key := publicKeyBase64;
                   encrypted_private_key :=
                     JSON_stringify
                       {| encryptedKey := encryptedKey sealed;
                          salt := salt sealed;
                          iv := iv sealed |};
                   key_algorithm := lit "RSA-OAEP" |} in
              emit (insert row) >>>
              match insert_error w row with
              | Some error => st_throw (ClientError error)
              | None => st_ret tt
              end >>>
              emit (toast "Encryption keys created"
                      "Your account is now ready for secure file sharing!") >>>
              emit onComplete)
             (fun error =>
                emit (console_error error) >>>
                emit (toast "Key setup failed" (message error))))
          (fun s => (fst s, snd s ++ [setLoading false]))
  end.

End Handlers.

End KeySetup.

(** ** DecryptDialog.tsx: asking for the passphrase *)

Module DecryptDialog.

(** The state of the dialog; [open] is the parent's, changed through
    [onOpenChange]. *)
Record State := {
  passphrase : JSString;
  loading : bool;
  error : string;
  open : bool;
}.

Definition setError (x : string) (st : State) : State :=
  {| passphrase := passphrase st; loading := loading st; error := x;
     open := open st |}.

Definition setLoading (b : bool) (st : State) : State :=
  {| passphrase := passphrase st; loading := b; error := error st;
     open := open st |}.

Definition setPassphrase (p : JSString) (st : State) : State :=
  {| passphrase := p; loading := loading st; error := error st;
     open := open st |}.

Definition onOpenChange (b : bool) (st : State) : State :=
  {| passphrase := passphrase st; loading := loading st; error := error st;
     open := b |}.

(** [x || y] on messages: the empty one is falsy. *)
Definition or_else (x y : string) : string :=
  match x with
  | EmptyString => y
  | _ => x
  end.

Section Handlers.

Context {P : Platform}.

(** [handleDecrypt]: the state it leaves and the passphrases it has
    called [onDecrypt] with. *)
Definition handleDecrypt (onDecrypt : JSString -> Result unit) (st : State)
    : State * list JSString :=
  if is_nil (passphrase st) then
    (setError "Please enter your passphrase" st, [])
  else
    let p := passphrase st in
    let st := setLoading true st in
    let st := setError "" st in
    let st :=
      match onDecrypt p with
      | Ok _ =>
          let st := onOpenChange false st in
          setPassphrase [] st
      | Throw err =>
          setError
            (or_else (message err)
               "Decryption failed. Please check your passphrase.")
            st
      end in
    (setLoading false st, [p]).

End Handlers.

End DecryptDialog.

(** ** FileUpload.tsx: encrypting and storing a file *)

Module FileUpload.

(** A [File]: the object ([ref] tells two objects apart), its name, its
    bytes and its type; its size is the number of its bytes. *)
Record File := {
  ref : N;
  name : JSString;
  content : Bytes;
  type : JSString;
}.

Definition size (f : File) : N := N.of_nat (length (content f)).

Inductive Status := encrypting | uploading | complete | failed.

Record UploadProgress := {
  file : File;
  progress : N;
  status : Status;
  error : option string;
}.

Record FileRow := {
  user_id : JSString;
  filename : JSString;
  encrypted_filename : JSString;
  file_size : N;
  mime_type : JSString;
  encrypted_symmetric_key : JSString;
  iv : JSString;
  storage_path : JSString;
  checksum : JSString;
}.

Inductive Event :=
| select_public_key (user_id : JSString)
| upload (path : JSString) (blob : Bytes)
| insert (row : FileRow)
| toast (title : string) (description : JSString)
| onUploadComplete
| console_error (e : JsError).

(** The session, the clock and the collaborators. *)
Record World := {
  user : option JSString;
  (** [Date.now()] *)
  now : N;
  (** [user_keys.public_key] of a user, when there is one row *)
  public_key : JSString -> option JSString;
  (** the error, if any, of an upload to the bucket [encrypted-files] *)
  upload_error : JSString -> Bytes -> option string;
  (** the error, if any, of the insert into [encrypted_files] *)
  insert_error : FileRow -> option string;
}.

Section Handlers.

Context {P : Platform}.

(** The entropy, the list of uploads shown, and what has happened. *)
Definition State : Type := Entropy * (list UploadProgress * list Event).

Definition emit (ev : Event) : ST State unit :=
  st_modify (fun s => (fst s, (fst (snd s), snd (snd s) ++ [ev]))).

Definition setUploads (f : list UploadProgress -> list UploadProgress)
    : ST State unit :=
  st_modify (fun s => (fst s, (f (fst (snd s)), snd (snd s)))).

Definition await {A} (m : M A) : ST State A :=
  fun s => let (r, e') := m (fst s) in (r, (e', snd s)).

(** [prev.map((u) => u.file === file ? change(u) : u)] *)
Definition for_file (f : File) (change : UploadProgress -> UploadProgress)
    (prev : list UploadProgress) : list UploadProgress :=
  map (fun u => if ref (file u) =? ref f then change u else u) prev.

(** [Uint8Array.from(atob(text), (c) => c.charCodeAt(0))] *)
Definition bytes_of_base64 (text : JSString) : Result Bytes :=
  let? binary := atob text in
  Ok (map u8 binary).

Definition processFile (w : World) (f : File) : ST State unit :=
  match user w with
  | None => st_ret tt
  | Some user_id =>
      let uploadId := name f ++ decimal (now w) in
      setUploads
        (fun prev =>
           prev ++ [{| file := f; progress := 0; status := encrypting;
                       error := None |}]) >>>
      st_try_catch
        (emit (select_public_key user_id) >>>
         keyData <==
           match public_key w user_id with
           | None =>
               st_throw
                 (Error "User keys not found. Please set up encryption keys first.")
           | Some public_key => st_ret public_key
           end ;;
         symmetricKey <== await generateFileEncryptionKey ;;
         setUploads
           (for_file f
              (fun u => {| file := file u; progress := 20;
                           status := encrypting; error := error u |})) >>>
         encrypted_iv <== await (encryptFile (content f) symmetricKey) ;;
         checksum <== st_lift (calculateFileChecksum (content f)) ;;
         publicKeyData <== st_lift (bytes_of_base64 keyData) ;;
         publicKeyObj <==
           st_lift
             (subtle.importKey_spki_RSA_OAEP publicKeyData SHA_256 true
                [wrapKey]) ;;
         wrappedKey <== await (wrapSymmetricKey symmetricKey publicKeyObj) ;;
         setUploads
           (for_file f
              (fun u => {| file := file u; progress := 50;
                           status := uploading; error := error u |})) >>>
         let storagePath := user_id ++ lit "/" ++ uploadId in
         emit (upload storagePath (fst encrypted_iv)) >>>
         match upload_error w storagePath (fst encrypted_iv) with
         | Some storageError => st_throw (ClientError storageError)
         | None => st_ret tt
         end >>>
         setUploads
           (for_file f
              (fun u => {| file := file u; progress := 80;
                           status := status u; error := error u |})) >>>
         let row :=
           {| user_id := user_id;
              filename := name f;
              encrypted_filename := uploadId;
              file_size := size f;
              mime_type := type f;
              encrypted_symmetric_key := wrappedKey;
              iv := snd encrypted_iv;
              storage_path := storagePath;
              checksum := checksum |} in
         emit (insert row) >>>
         match insert_error w row with
         | Some dbError => st_throw (ClientError dbError)
         | None => st_ret tt
         end >>>
         setUploads
           (for_file f
              (fun u => {| file := file u; progress := 100;
                           status := complete; error := error u |})) >>>
         emit (toast "File encrypted and uploaded"
                 (name f ++ lit " is now securely stored.")) >>>
         emit onUploadComplete)
        (fun error =>
           emit (console_error error) >>>
           setUploads
             (for_file f
                (fun u => {| file := file u; progress := progress u;
                             status := failed;
                             error := Some (message error) |})) >>>
           emit (toast "Upload failed" (lit (message error))))
  end.

End Handlers.

End FileUpload.

(** ** FileList.tsx: deleting a file *)

Module FileListDelete.

Inductive Event :=
| confirm_prompt (message : JSString)
| remove_blob (path : JSString)
| delete_row (id : JSString)
| toast (title : string) (description : JSString).

Record World := {
  (** the answer to [confirm] *)
  confirm : FileList.EncryptedFile.t -> bool;
  (** the error, if any, of the delete from [encrypted_files] *)
  delete_error : JSString -> option string;
}.

Section Handlers.

Context {P : Platform}.

(** The list of files shown and what has happened. *)
Definition State : Type := list FileList.EncryptedFile.t * list Event.

Definition emit (ev : Event) : ST State unit :=
  st_modify (fun s => (fst s, snd s ++ [ev])).

Definition setFiles
    (f : list FileList.EncryptedFile.t -> list FileList.EncryptedFile.t)
    : ST State unit :=
  st_modify (fun s => (f (fst s), snd s)).

(** The answer of the storage to the removal is not looked at. *)
Definition handleDelete (w : World) (file : FileList.EncryptedFile.t)
    : ST State unit :=
  emit (confirm_prompt
          (lit "Delete " ++ FileList.EncryptedFile.filename file
           ++ lit "? This cannot be undone.")) >>>
  if negb (confirm w file) then st_ret tt
  else
    st_try_catch
      (emit (remove_blob (FileList.EncryptedFile.storage_path file)) >>>
       emit (delete_row (FileList.EncryptedFile.id file)) >>>
       match delete_error w (FileList.EncryptedFile.id file) with
       | Some error => st_throw (ClientError error)
       | None => st_ret tt
       end >>>
       setFiles
         (List.filter
            (fun f =>
               negb (string_eqb (FileList.EncryptedFile.id f)
                       (FileList.EncryptedFile.id file)))) >>>
       emit (toast "File deleted"
               (FileList.EncryptedFile.filename file
                ++ lit " has been permanently deleted.")))
      (fun error => emit (toast "Delete failed" (lit (message error)))).

End Handlers.

End FileListDelete.

(** ** More notions of the statements *)

Section MoreNotions.

Context {P : Platform}.

(** The public key of a user, as the keypair manager makes it. *)
Definition user_public_key (k : RsaPublic) : CryptoKey :=
  {| type := public; extractable := true; algorithm := RSA_OAEP SHA_256;
     usages := [encrypt; wrapKey]; data := RsaPublicData k |}.

(** The public key that [processFile] imports: it may only wrap. *)
Definition upload_public_key (k : RsaPublic) : CryptoKey :=
  {| type := public; extractable := true; algorithm := RSA_OAEP SHA_256;
     usages := [wrapKey]; data := RsaPublicData k |}.

End MoreNotions.

(** The characters of a passphrase that the generator makes. *)
Definition passphrase_char (c : N) : bool :=
  (c =? 45) || ((97 <=? c) && (c <=? 122)).

Module UploadState.

Import FileUpload.

(** The list of uploads when [processFile] is over: the entry of the
    file is added, and every entry of the file has the progress and the
    status reached, and the error if there is one. *)
Definition finished (f : File) (p : N) (s : Status) (x : option string)
    (prev : list UploadProgress) : list UploadProgress :=
  for_file f
    (fun u => {| file := file u; progress := p; status := s;
                 error := match x with Some _ => x | None => error u end |})
    (prev ++ [{| file := f; progress := 0; status := encrypting;
                 error := None |}]).

(** The same when the failure came before any progress was shown. *)
Definition failed_at_once (f : File) (x : string)
    (prev : list UploadProgress) : list UploadProgress :=
  for_file f
    (fun u => {| file := file u; progress := progress u; status := failed;
                 error := Some x |})
    (prev ++ [{| file := f; progress := 0; status := encrypting;
                 error := None |}]).

End UploadState.

Module MoreFlow.

Import FileList.

(** The record of the list is the row that [processFile] inserted, and
    the storage gives back the blob that was uploaded at its path. *)
Definition stored_file (w : World) (f : EncryptedFile.t)
    (row : FileUpload.FileRow) (blob : Bytes) : Prop :=
  EncryptedFile.filename f = FileUpload.filename row
  /\ EncryptedFile.encrypted_symmetric_key f
     = FileUpload.encrypted_symmetric_key row
  /\ EncryptedFile.iv f = FileUpload.iv row
  /\ EncryptedFile.storage_path f = FileUpload.storage_path row
  /\ storage w (FileUpload.storage_path row) = Blob blob.

(** The first and the last event of a trace. *)
Definition brackets {A} (first last : A) (t : list A) : Prop :=
  exists middle, t = first :: middle ++ [last].

End MoreFlow.

(** ** The scenario, from the key setup on

    The same user sets up keys, uploads a file and downloads it; the rows
    and the blob are what the handlers compute on the deterministic
    platform. *)

Module MoreDemo.

#[local] Existing Instance Stub.platform.

Definition setup_world (insert_error : option string) : KeySetup.World :=
  {| KeySetup.user := Some (lit "user-1");
     KeySetup.passphrase := Demo.passphrase;
     KeySetup.confirmPassphrase := Demo.passphrase;
     KeySetup.insert_error := fun _ => insert_error |}.

(** The row of keys that the setup inserts. *)
Definition keys : KeySetup.UserKeysRow :=
  Eval vm_compute in
    match snd (snd (KeySetup.handleSetupKeys (setup_world None) (0, []))) with
    | _ :: KeySetup.insert row :: _ => row
    | _ =>
        {| KeySetup.user_id := []; KeySetup.public_key := [];
           KeySetup.encrypted_private_key := [];
           KeySetup.key_algorithm := [] |}
    end.

Definition upload_world (public_key : option JSString)
    (upload_error insert_error : option string) : FileUpload.World :=
  {| FileUpload.user := Some (lit "user-1");
     FileUpload.now := 1700000000000;
     FileUpload.public_key := fun _ => public_key;
     FileUpload.upload_error := fun _ _ => upload_error;
     FileUpload.insert_error := fun _ => insert_error |}.

Definition upload_file : FileUpload.File :=
  {| FileUpload.ref := 1;
     FileUpload.name := lit "notes.txt";
     FileUpload.content := Demo.message;
     FileUpload.type := lit "text/plain" |}.

(** The row and the blob that the upload stores. *)
Definition stored : FileUpload.FileRow * Bytes :=
  Eval vm_compute in
    match
      snd (snd (snd (FileUpload.processFile
                       (upload_world (Some (KeySetup.public_key keys))
                          None None)
                       upload_file (100, ([], [])))))
    with
    | _ :: FileUpload.upload _ blob :: FileUpload.insert row :: _ =>
        (row, blob)
    | _ =>
        ({| FileUpload.user_id := []; FileUpload.filename := [];
            FileUpload.encrypted_filename := []; FileUpload.file_size := 0;
            FileUpload.mime_type := [];
            FileUpload.encrypted_symmetric_key := []; FileUpload.iv := [];
            FileUpload.storage_path := []; FileUpload.checksum := [] |}, [])
    end.

(** The stored row, as the list of files shows it. *)
Definition record : FileList.EncryptedFile.t :=
  {| FileList.EncryptedFile.id := lit "file-2";
     FileList.EncryptedFile.filename := FileUpload.filename (fst stored);
     FileList.EncryptedFile.file_size := FileUpload.file_size (fst stored);
     FileList.EncryptedFile.mime_type := FileUpload.mime_type (fst stored);
     FileList.EncryptedFile.encrypted_symmetric_key :=
       FileUpload.encrypted_symmetric_key (fst stored);
     FileList.EncryptedFile.iv := FileUpload.iv (fst stored);
     FileList.EncryptedFile.storage_path :=
       FileUpload.storage_path (fst stored);
     FileList.EncryptedFile.created_at := lit "2024-01-01T00:00:00Z" |}.

Definition download_world : FileList.World :=
  {| FileList.user := Some (lit "user-1");
     FileList.selectedFile := Some record;
     FileList.user_keys :=
       fun _ => FileList.Row (KeySetup.encrypted_private_key keys);
     FileList.storage := fun _ => FileList.Blob (snd stored) |}.

(** A user who has not set up keys. *)
Definition world_without_keys : FileList.World :=
  {| FileList.user := Some (lit "user-1");
     FileList.selectedFile := Some Demo.file;
     FileList.user_keys := fun _ => FileList.NoRow;
     FileList.storage := fun _ => FileList.Blob (fst Demo.encrypted) |}.

(** The dialog with the passphrase one character off typed in. *)
Definition dialog : DecryptDialog.State :=
  {| DecryptDialog.passphrase := Demo.wrong_passphrase;
     DecryptDialog.loading := false;
     DecryptDialog.error := "";
     DecryptDialog.open := true |}.

End MoreDemo.

(** * Properties *)

(** ** Bytes and code units *)

Example includes_decrypt :
  includes "Failed to decrypt the data" "decrypt" = true
  /\ includes "Encryption keys not found. Please set up your keys first."
       "decrypt" = false.
Proof. split; reflexivity. Qed.

Lemma byte_to_N_lt (b : byte) : Byte.to_N b < 256.
Proof. pose proof (Byte.to_N_bounded b). lia. Qed.

Lemma u8_of_mod (n : N) (b : byte) : n mod 256 = Byte.to_N b -> u8 n = b.
Proof. intros E. unfold u8. rewrite E, Byte.of_to_N. reflexivity. Qed.

Lemma u8_to_N (b : byte) : u8 (Byte.to_N b) = b.
Proof. apply u8_of_mod, N.mod_small, byte_to_N_lt. Qed.

Lemma map_u8_fromCharCode (bs : Bytes) : map u8 (map fromCharCode bs) = bs.
Proof.
  induction bs as [|b bs IH]; simpl; [reflexivity|].
  unfold fromCharCode at 1. rewrite u8_to_N, IH. reflexivity.
Qed.

Lemma fromCharCode_latin1 (bs : Bytes) :
  forallb (fun c => c <=? 255) (map fromCharCode bs) = true.
Proof.
  induction bs as [|b bs IH]; simpl; [reflexivity|].
  rewrite IH, andb_true_r. apply N.leb_le, Byte.to_N_bounded.
Qed.

(** The loop of [arrayBufferToBase64] builds the string of the bytes. *)
Lemma binary_loop (bytes : Bytes) (n : nat) :
  (n <= length bytes)%nat ->
  fold_left (fun binary i => binary ++ [fromCharCode (nth i bytes x00)])
    (seq 0 n) []
  = map fromCharCode (take n bytes).
Proof.
  induction n as [|n IH]; intros Hn; [reflexivity|].
  rewrite seq_S, fold_left_app, IH by lia. simpl.
  destruct (lookup_lt_is_Some_2 bytes n) as [b Hb]; [lia|].
  rewrite (take_S_r _ _ _ Hb), map_app, nth_lookup, Hb. reflexivity.
Qed.

(** The loop of [base64ToArrayBuffer] stores the code units in order. *)
Lemma store_loop (binary : JSString) (n : nat) :
  (n <= length binary)%nat ->
  fold_left (fun bytes i => <[i := u8 (charCodeAt binary i)]> bytes)
    (seq 0 n) (replicate (length binary) x00)
  = map u8 (take n binary) ++ replicate (length binary - n) x00.
Proof.
  induction n as [|n IH]; intros Hn.
  - simpl. rewrite Nat.sub_0_r. reflexivity.
  - rewrite seq_S, fold_left_app, IH by lia. simpl.
    destruct (lookup_lt_is_Some_2 binary n) as [c Hc]; [lia|].
    rewrite (take_S_r _ _ _ Hc), map_app, <- app_assoc. simpl.
    assert (Hlen : length (map u8 (take n binary)) = n).
    { rewrite length_map, length_take. lia. }
    rewrite insert_app_r_alt by lia. rewrite Hlen, Nat.sub_diag.
    replace (length binary - n)%nat with (S (length binary - S n)) by lia.
    simpl. unfold charCodeAt. rewrite nth_lookup, Hc. reflexivity.
Qed.

Lemma arrayBufferToBase64_encode (buffer : Bytes) :
  arrayBufferToBase64 buffer = Ok (Base64.encode buffer).
Proof.
  unfold arrayBufferToBase64, btoa.
  rewrite binary_loop by lia. rewrite firstn_all.
  rewrite fromCharCode_latin1, map_u8_fromCharCode. reflexivity.
Qed.

Lemma base64ToArrayBuffer_decode (base64 : JSString) :
  base64ToArrayBuffer base64
  = match Base64.decode base64 with
    | Some bs => Ok bs
    | None => Throw (DOMException InvalidCharacterError)
    end.
Proof.
  unfold base64ToArrayBuffer, atob.
  destruct (Base64.decode base64) as [bs|]; [|reflexivity].
  rewrite store_loop by lia.
  rewrite firstn_all, Nat.sub_diag, app_nil_r, map_u8_fromCharCode.
  reflexivity.
Qed.

(** ** The base64 alphabet *)

Lemma value_of_char_of (s : N) :
  s < 64 -> Base64.value_of (Base64.char_of s) = Some s.
Proof.
  intros Hs. unfold Base64.char_of, Base64.value_of.
  repeat match goal with
         | |- context [?a <? ?b] => destruct (N.ltb_spec a b)
         | |- context [?a <=? ?b] => destruct (N.leb_spec a b)
         | |- context [?a =? ?b] => destruct (N.eqb_spec a b)
         end; simpl; try lia; f_equal; lia.
Qed.

Lemma value_of_not_special (c v : N) :
  Base64.value_of c = Some v ->
  Base64.ascii_whitespace c = false /\ c <> Base64.pad /\ v < 64.
Proof.
  unfold Base64.value_of, Base64.ascii_whitespace, Base64.pad.
  repeat match goal with
         | |- context [?a <=? ?b] => destruct (N.leb_spec a b)
         | |- context [?a =? ?b] => destruct (N.eqb_spec a b)
         end; simpl; intros E; inversion E; repeat split; try lia; congruence.
Qed.

Lemma char_of_in_alphabet (s : N) :
  s < 64 -> Base64.in_alphabet (Base64.char_of s) = true.
Proof.
  intros Hs. unfold Base64.in_alphabet. rewrite value_of_char_of by exact Hs.
  reflexivity.
Qed.

(** Lists of bytes, three at a time. *)
Lemma bytes_ind3 (Q : Bytes -> Prop) :
  Q [] -> (forall a, Q [a]) -> (forall a b, Q [a; b]) ->
  (forall a b c rest, Q rest -> Q (a :: b :: c :: rest)) ->
  forall bs, Q bs.
Proof.
  intros H0 H1 H2 H3.
  assert (H : forall bs, Q bs /\ (forall a, Q (a :: bs))
                         /\ (forall a b, Q (a :: b :: bs))).
  { induction bs as [|c bs (IH0 & IH1 & IH2)]; [repeat split; auto|].
    repeat split; auto. }
  intros bs. apply H.
Qed.

(** Arithmetic on the 24-bit quantum. *)
Ltac split_div a d q r :=
  pose proof (N.div_mod' a d);
  assert (a mod d < d) by (apply N.mod_lt; discriminate);
  generalize dependent (a / d); generalize dependent (a mod d);
  intros r ? q ?.

Lemma sextet_bounds_N (a b c : N) :
  a < 256 -> b < 256 -> c < 256 ->
  a / 4 < 64 /\ (a mod 4) * 16 < 64 /\ (a mod 4) * 16 + b / 16 < 64
  /\ (b mod 16) * 4 < 64 /\ (b mod 16) * 4 + c / 64 < 64 /\ c mod 64 < 64.
Proof.
  intros. split_div a 4 qa ra. split_div b 16 qb rb. split_div c 64 qc rc.
  lia.
Qed.

Lemma sextet_bounds (a b c : byte) :
  let a := Byte.to_N a in
  let b := Byte.to_N b in
  let c := Byte.to_N c in
  a / 4 < 64 /\ (a mod 4) * 16 < 64 /\ (a mod 4) * 16 + b / 16 < 64
  /\ (b mod 16) * 4 < 64 /\ (b mod 16) * 4 + c / 64 < 64 /\ c mod 64 < 64.
Proof. apply sextet_bounds_N; apply byte_to_N_lt. Qed.

Lemma quantum_value (a b c : N) :
  a < 256 -> b < 256 -> c < 256 ->
  (((0 * 64 + a / 4) * 64 + ((a mod 4) * 16 + b / 16)) * 64
   + ((b mod 16) * 4 + c / 64)) * 64 + c mod 64
  = a * 65536 + b * 256 + c.
Proof.
  intros. split_div a 4 qa ra. split_div b 16 qb rb. split_div c 64 qc rc.
  lia.
Qed.

Lemma quantum_bytes (a b c : N) :
  a < 256 -> b < 256 -> c < 256 ->
  let buffer := a * 65536 + b * 256 + c in
  (buffer / 65536) mod 256 = a /\ (buffer / 256) mod 256 = b
  /\ buffer mod 256 = c.
Proof.
  intros Ha Hb Hc buffer. subst buffer.
  assert (E1 : (a * 65536 + b * 256 + c) / 65536 = a).
  { symmetry. apply (N.div_unique _ _ _ (b * 256 + c)); lia. }
  assert (E2 : (a * 65536 + b * 256 + c) / 256 = a * 256 + b).
  { symmetry. apply (N.div_unique _ _ _ c); lia. }
  rewrite E1, E2. repeat split.
  - apply N.mod_small; lia.
  - symmetry. apply (N.mod_unique _ _ a); lia.
  - symmetry. apply (N.mod_unique _ _ (a * 256 + b)); lia.
Qed.

Lemma one_byte_left (a : N) :
  a < 256 -> (((0 * 64 + a / 4) * 64 + (a mod 4) * 16) / 16) mod 256 = a.
Proof.
  intros. split_div a 4 qa ra.
  replace ((0 * 64 + qa) * 64 + ra * 16) with (a * 16) by lia.
  rewrite N.div_mul by discriminate. apply N.mod_small; lia.
Qed.

Lemma two_bytes_left (a b : N) :
  a < 256 -> b < 256 ->
  let buffer :=
    ((0 * 64 + a / 4) * 64 + ((a mod 4) * 16 + b / 16)) * 64 + (b mod 16) * 4 in
  (buffer / 1024) mod 256 = a /\ (buffer / 4) mod 256 = b.
Proof.
  intros Ha Hb buffer. subst buffer.
  split_div a 4 qa ra. split_div b 16 qb rb.
  replace (((0 * 64 + qa) * 64 + (ra * 16 + qb)) * 64 + rb * 4)
    with (a * 1024 + b * 4) by lia.
  assert (E1 : (a * 1024 + b * 4) / 1024 = a).
  { symmetry. apply (N.div_unique _ _ _ (b * 4)); lia. }
  assert (E2 : (a * 1024 + b * 4) / 4 = a * 256 + b).
  { symmetry. apply (N.div_unique _ _ _ 0); lia. }
  rewrite E1, E2. split.
  - apply N.mod_small; lia.
  - symmetry. apply (N.mod_unique _ _ a); lia.
Qed.

Lemma encode_body_alphabet (bs : Bytes) :
  forallb Base64.in_alphabet (Base64.encode_body bs) = true.
Proof.
  induction bs as [|a|a b|a b c rest IH] using bytes_ind3.
  - reflexivity.
  - pose proof (sextet_bounds a a a) as H. simpl in *.
    rewrite !char_of_in_alphabet by tauto. reflexivity.
  - pose proof (sextet_bounds a b b) as H. simpl in *.
    rewrite !char_of_in_alphabet by tauto. reflexivity.
  - pose proof (sextet_bounds a b c) as H.
    change (Base64.encode_body (a :: b :: c :: rest))
      with ([Base64.char_of (Byte.to_N a / 4);
             Base64.char_of (Byte.to_N a mod 4 * 16 + Byte.to_N b / 16);
             Base64.char_of (Byte.to_N b mod 16 * 4 + Byte.to_N c / 64);
             Base64.char_of (Byte.to_N c mod 64)]
            ++ Base64.encode_body rest).
    rewrite forallb_app, IH. simpl in *.
    rewrite !char_of_in_alphabet by tauto. reflexivity.
Qed.

Lemma encode_body_cons3 (a b c : byte) (rest : Bytes) :
  Base64.encode_body (a :: b :: c :: rest)
  = [Base64.char_of (Byte.to_N a / 4);
     Base64.char_of (Byte.to_N a mod 4 * 16 + Byte.to_N b / 16);
     Base64.char_of (Byte.to_N b mod 16 * 4 + Byte.to_N c / 64);
     Base64.char_of (Byte.to_N c mod 64)]
    ++ Base64.encode_body rest.
Proof. reflexivity. Qed.

Lemma padding_cons3 (n : nat) :
  Base64.padding (S (S (S n))) = Base64.padding n.
Proof.
  unfold Base64.padding.
  replace (S (S (S n))) with (n + 1 * 3)%nat by lia.
  rewrite Nat.Div0.mod_add. reflexivity.
Qed.

Lemma mod4_add4 (n : nat) : ((4 + n) mod 4 = n mod 4)%nat.
Proof.
  replace (4 + n)%nat with (n + 1 * 4)%nat by lia.
  apply Nat.Div0.mod_add.
Qed.

Lemma encode_body_length (bs : Bytes) :
  (length (Base64.encode_body bs) mod 4 <> 1)%nat.
Proof.
  induction bs as [|a|a b|a b c rest IH] using bytes_ind3;
    try (simpl; discriminate).
  rewrite encode_body_cons3, length_app.
  change (length [_; _; _; _]) with 4%nat. rewrite mod4_add4. exact IH.
Qed.

Lemma encode_length (bs : Bytes) :
  (length (Base64.encode bs) mod 4 = 0)%nat.
Proof.
  unfold Base64.encode.
  induction bs as [|a|a b|a b c rest IH] using bytes_ind3;
    try reflexivity.
  rewrite encode_body_cons3. simpl length at 2. rewrite padding_cons3.
  rewrite <- app_assoc, length_app.
  change (length [_; _; _; _]) with 4%nat. rewrite mod4_add4. exact IH.
Qed.

(** ** Decoding what was encoded *)

Lemma strip_one_pad (l : JSString) :
  Base64.strip_one (l ++ [Base64.pad]) = l.
Proof.
  unfold Base64.strip_one. rewrite rev_app_distr. simpl.
  apply rev_involutive.
Qed.

Lemma strip_one_alphabet (l : JSString) :
  forallb Base64.in_alphabet l = true -> Base64.strip_one l = l.
Proof.
  intros H. unfold Base64.strip_one.
  destruct (rev l) as [|c r] eqn:E; [reflexivity|].
  assert (Hc : Base64.in_alphabet c = true).
  { rewrite forallb_forall in H. apply H. apply in_rev. rewrite E. left.
    reflexivity. }
  unfold Base64.in_alphabet in Hc.
  destruct (Base64.value_of c) as [v|] eqn:Ev; [|discriminate].
  destruct (value_of_not_special _ _ Ev) as (_ & Hpad & _).
  destruct (N.eqb_spec c Base64.pad); [contradiction|reflexivity].
Qed.

Lemma strip_padding_encode (bs : Bytes) :
  Base64.strip_padding (Base64.encode bs) = Base64.encode_body bs.
Proof.
  unfold Base64.strip_padding. rewrite encode_length. simpl.
  pose proof (encode_body_alphabet bs) as Hbody.
  unfold Base64.encode, Base64.padding.
  destruct (length bs mod 3)%nat as [|[|[|n]]].
  - rewrite app_nil_r, !(strip_one_alphabet _ Hbody). reflexivity.
  - change [Base64.pad; Base64.pad] with ([Base64.pad] ++ [Base64.pad]).
    rewrite app_assoc, !strip_one_pad. reflexivity.
  - rewrite strip_one_pad, (strip_one_alphabet _ Hbody). reflexivity.
  - rewrite app_nil_r, !(strip_one_alphabet _ Hbody). reflexivity.
Qed.

Lemma no_whitespace_encode (bs : Bytes) :
  List.filter (fun c => negb (Base64.ascii_whitespace c)) (Base64.encode bs)
  = Base64.encode bs.
Proof.
  apply forallb_filter_id. unfold Base64.encode. rewrite forallb_app.
  apply andb_true_iff. split.
  - pose proof (encode_body_alphabet bs) as H.
    rewrite forallb_forall in *. intros c Hc. specialize (H c Hc).
    unfold Base64.in_alphabet in H.
    destruct (Base64.value_of c) as [v|] eqn:Ev; [|discriminate].
    destruct (value_of_not_special _ _ Ev) as (Hws & _). rewrite Hws.
    reflexivity.
  - unfold Base64.padding. destruct (length bs mod 3)%nat as [|[|[|n]]];
      reflexivity.
Qed.

Lemma decode_loop_step (c : N) (rest : JSString) (buffer bits v : N) :
  Base64.value_of c = Some v ->
  Base64.decode_loop (c :: rest) buffer bits
  = if bits + 6 =? 24 then
      option_map
        (fun out =>
           u8 ((buffer * 64 + v) / 65536) :: u8 ((buffer * 64 + v) / 256)
           :: u8 (buffer * 64 + v) :: out)
        (Base64.decode_loop rest 0 0)
    else Base64.decode_loop rest (buffer * 64 + v) (bits + 6).
Proof. intros E. cbn [Base64.decode_loop]. rewrite E. reflexivity. Qed.

Lemma decode_loop_encode_body (bs : Bytes) :
  Base64.decode_loop (Base64.encode_body bs) 0 0 = Some bs.
Proof.
  induction bs as [|a|a b|a b c rest IH] using bytes_ind3.
  - reflexivity.
  - destruct (sextet_bounds a a a) as (H0 & H1 & _).
    cbn [Base64.encode_body].
    rewrite (decode_loop_step _ _ _ _ _ (value_of_char_of _ H0)).
    change (0 + 6 =? 24) with false. cbv iota.
    rewrite (decode_loop_step _ _ _ _ _ (value_of_char_of _ H1)).
    change (0 + 6 + 6 =? 24) with false. cbv iota.
    cbn [Base64.decode_loop]. change (0 + 6 + 6 =? 0) with false.
    change (0 + 6 + 6 =? 12) with true. cbv iota.
    rewrite (u8_of_mod _ a); [reflexivity|].
    apply one_byte_left, byte_to_N_lt.
  - destruct (sextet_bounds a b b) as (H0 & _ & H1 & H2 & _).
    cbn [Base64.encode_body].
    rewrite (decode_loop_step _ _ _ _ _ (value_of_char_of _ H0)).
    change (0 + 6 =? 24) with false. cbv iota.
    rewrite (decode_loop_step _ _ _ _ _ (value_of_char_of _ H1)).
    change (0 + 6 + 6 =? 24) with false. cbv iota.
    rewrite (decode_loop_step _ _ _ _ _ (value_of_char_of _ H2)).
    change (0 + 6 + 6 + 6 =? 24) with false. cbv iota.
    cbn [Base64.decode_loop]. change (0 + 6 + 6 + 6 =? 0) with false.
    change (0 + 6 + 6 + 6 =? 12) with false.
    change (0 + 6 + 6 + 6 =? 18) with true. cbv iota.
    destruct (two_bytes_left _ _ (byte_to_N_lt a) (byte_to_N_lt b)) as [E1 E2].
    rewrite (u8_of_mod _ a), (u8_of_mod _ b); [reflexivity| |].
    + exact E2.
    + exact E1.
  - destruct (sextet_bounds a b c) as (H0 & _ & H1 & _ & H2 & H3).
    rewrite encode_body_cons3. cbn [app].
    rewrite (decode_loop_step _ _ _ _ _ (value_of_char_of _ H0)).
    change (0 + 6 =? 24) with false. cbv iota.
    rewrite (decode_loop_step _ _ _ _ _ (value_of_char_of _ H1)).
    change (0 + 6 + 6 =? 24) with false. cbv iota.
    rewrite (decode_loop_step _ _ _ _ _ (value_of_char_of _ H2)).
    change (0 + 6 + 6 + 6 =? 24) with false. cbv iota.
    rewrite (decode_loop_step _ _ _ _ _ (value_of_char_of _ H3)).
    change (0 + 6 + 6 + 6 + 6 =? 24) with true. cbv iota.
    rewrite IH. cbn [option_map].
    rewrite quantum_value by apply byte_to_N_lt.
    destruct (quantum_bytes _ _ _ (byte_to_N_lt a) (byte_to_N_lt b)
                (byte_to_N_lt c)) as (E1 & E2 & E3).
    rewrite (u8_of_mod _ a), (u8_of_mod _ b), (u8_of_mod _ c);
      [reflexivity| | |]; assumption.
Qed.

Lemma decode_encode (bs : Bytes) :
  Base64.decode (Base64.encode bs) = Some bs.
Proof.
  unfold Base64.decode.
  rewrite no_whitespace_encode, strip_padding_encode.
  destruct (Nat.eqb_spec (length (Base64.encode_body bs) mod 4) 1) as [E|_].
  - destruct (encode_body_length bs E).
  - rewrite encode_body_alphabet. apply decode_loop_encode_body.
Qed.

Lemma base64ToArrayBuffer_encode (bs : Bytes) :
  base64ToArrayBuffer (Base64.encode bs) = Ok bs.
Proof. rewrite base64ToArrayBuffer_decode, decode_encode. reflexivity. Qed.

(** C5. Codec round-trip: every byte sequence, the empty one included, is
    encoded by [arrayBufferToBase64] to a text that [base64ToArrayBuffer]
    decodes to the same bytes, in the same order and number. *)
Theorem codec_roundtrip (b : Bytes) :
  exists text,
    arrayBufferToBase64 b = Ok text /\ base64ToArrayBuffer text = Ok b.
Proof.
  exists (Base64.encode b). split.
  - apply arrayBufferToBase64_encode.
  - apply base64ToArrayBuffer_encode.
Qed.

(** ** When decoding fails *)

Lemma forallb_false_Exists {A} (f : A -> bool) (l : list A) :
  forallb f l = false <-> Exists (fun x => f x = false) l.
Proof.
  induction l as [|x l IH]; simpl.
  - split; [discriminate|]. intros H. inversion H.
  - rewrite andb_false_iff, Exists_cons, IH. reflexivity.
Qed.

(** Once the alphabet and the length are checked, the loop ends with
    bytes: [k] characters of the current quantum are in the buffer. *)
Lemma decode_loop_total (data : JSString) :
  forall (buffer : N) (k : nat),
    (k < 4)%nat ->
    forallb Base64.in_alphabet data = true ->
    ((k + length data) mod 4 <> 1)%nat ->
    exists bs, Base64.decode_loop data buffer (6 * N.of_nat k) = Some bs.
Proof.
  induction data as [|c rest IH]; intros buffer k Hk Hall Hlen.
  - destruct k as [|[|[|[|k]]]]; try lia; simpl; eauto.
    exfalso. apply Hlen. reflexivity.
  - simpl in Hall. apply andb_true_iff in Hall as [Hc Hall].
    unfold Base64.in_alphabet in Hc.
    destruct (Base64.value_of c) as [v|] eqn:Ev; [|discriminate].
    rewrite (decode_loop_step _ _ _ _ _ Ev).
    destruct (N.eqb_spec (6 * N.of_nat k + 6) 24) as [E|E].
    + assert (k = 3%nat) by lia. subst k.
      destruct (IH 0 0%nat) as [bs Hbs]; [lia|exact Hall| |].
      * simpl length in Hlen.
        replace (3 + S (length rest))%nat with (4 + length rest)%nat in Hlen
          by lia.
        rewrite mod4_add4 in Hlen. exact Hlen.
      * change (6 * N.of_nat 0) with 0 in Hbs. rewrite Hbs. simpl. eauto.
    + destruct (IH (buffer * 64 + v) (S k)) as [bs Hbs];
        [lia|exact Hall| |].
      * simpl length in Hlen.
        replace (S k + length rest)%nat with (k + S (length rest))%nat by lia.
        exact Hlen.
      * replace (6 * N.of_nat k + 6) with (6 * N.of_nat (S k)) by lia.
        eauto.
Qed.

Lemma decode_None (s : JSString) :
  Base64.decode s = None <-> malformed_base64 s.
Proof.
  unfold Base64.decode, malformed_base64, base64_payload.
  set (d := Base64.strip_padding _).
  destruct (Nat.eqb_spec (length d mod 4) 1) as [E|E].
  - split; auto.
  - destruct (forallb Base64.in_alphabet d) eqn:Hall; simpl.
    + destruct (decode_loop_total d 0 0%nat) as [bs Hbs]; [lia|exact Hall|exact E|].
      change (6 * N.of_nat 0) with 0 in Hbs. rewrite Hbs.
      split; [discriminate|]. intros [H|H]; [contradiction|].
      apply forallb_false_Exists in H. congruence.
    + split; auto. intros _. right. apply forallb_false_Exists. exact Hall.
Qed.

(** C6, as the code has it. [base64ToArrayBuffer] fails exactly on the
    texts that are malformed once ASCII whitespace is removed and, when
    the length is then a multiple of four, one or two final '=' are
    dropped: a character outside the alphabet remains, or the length
    leaves a remainder of one modulo four. The failure is always the
    platform's [InvalidCharacterError], and every other text decodes. *)
Theorem decode_failure (s : JSString) :
  (base64ToArrayBuffer s = Throw (DOMException InvalidCharacterError)
   <-> malformed_base64 s)
  /\ ((exists b, base64ToArrayBuffer s = Ok b)
      \/ base64ToArrayBuffer s = Throw (DOMException InvalidCharacterError)).
Proof.
  rewrite base64ToArrayBuffer_decode, <- decode_None.
  destruct (Base64.decode s) as [bs|]; split; eauto.
  - split; discriminate.
  - split; reflexivity.
Qed.

(** C6, as the spec words it, fails: a space is outside the alphabet and
    "QQ" lacks its padding, yet both texts decode to the byte 0x41. *)
Lemma decode_accepts_whitespace_and_missing_padding :
  In 32 (lit " QQ==") /\ Base64.in_alphabet 32 = false
  /\ base64ToArrayBuffer (lit " QQ==") = Ok [x41]
  /\ base64ToArrayBuffer (lit "QQ") = Ok [x41].
Proof. vm_compute. repeat split. left. reflexivity. Qed.

(** ** The engine over any platform *)

Section EngineFacts.

Context {P : Platform}.

Lemma encrypt_AES_GCM_ok (iv : Bytes) (key : CryptoKey) (plaintext raw_key : Bytes) :
  algorithm_name key = name_AES_GCM ->
  usage_in encrypt (usages key) = true ->
  data key = RawData raw_key ->
  subtle.encrypt_AES_GCM iv key plaintext
  = Ok (aes_gcm_encrypt raw_key iv plaintext).
Proof.
  intros Hn Hu Hd. unfold subtle.encrypt_AES_GCM.
  rewrite Hn, Hu, Hd. reflexivity.
Qed.

Lemma decrypt_AES_GCM_spec (iv : Bytes) (key : CryptoKey) (ciphertext raw_key : Bytes) :
  algorithm_name key = name_AES_GCM ->
  usage_in decrypt (usages key) = true ->
  data key = RawData raw_key ->
  subtle.decrypt_AES_GCM iv key ciphertext
  = match aes_gcm_decrypt raw_key iv ciphertext with
    | Some plaintext => Ok plaintext
    | None =>
        Throw (operation_error (aes_gcm_decrypt_failed raw_key iv ciphertext))
    end.
Proof.
  intros Hn Hu Hd. unfold subtle.decrypt_AES_GCM.
  rewrite Hn, Hu, Hd. reflexivity.
Qed.

(** [decryptFile] on a well-formed IV and a key that may decrypt is the
    tag check of the platform. *)
Lemma decryptFile_spec (blob : Bytes) (key : CryptoKey) (iv raw_key : Bytes) :
  algorithm_name key = name_AES_GCM ->
  usage_in decrypt (usages key) = true ->
  data key = RawData raw_key ->
  decryptFile blob key (Base64.encode iv)
  = match aes_gcm_decrypt raw_key iv blob with
    | Some plaintext => Ok plaintext
    | None => Throw (operation_error (aes_gcm_decrypt_failed raw_key iv blob))
    end.
Proof.
  intros Hn Hu Hd. unfold decryptFile.
  rewrite base64ToArrayBuffer_encode. simpl.
  rewrite (decrypt_AES_GCM_spec _ _ _ _ Hn Hu Hd).
  destruct (aes_gcm_decrypt raw_key iv blob); reflexivity.
Qed.

(** What [encryptFile] returns. *)
Lemma encryptFile_spec (file : Bytes) (key : CryptoKey) (raw_key : Bytes) (e : Entropy) :
  algorithm_name key = name_AES_GCM ->
  usage_in encrypt (usages key) = true ->
  data key = RawData raw_key ->
  encryptFile file key e
  = let (iv, e') := getRandomValues 12 e in
    (Ok (aes_gcm_encrypt raw_key iv file, Base64.encode iv), e').
Proof.
  intros Hn Hu Hd. unfold encryptFile, bind, draw, lift, ret.
  destruct (getRandomValues 12 e) as [iv e'].
  rewrite (encrypt_AES_GCM_ok _ _ _ _ Hn Hu Hd), arrayBufferToBase64_encode.
  reflexivity.
Qed.

(** The file keys are what [generateFileEncryptionKey] returns. *)
Lemma generateFileEncryptionKey_spec (e : Entropy) :
  generateFileEncryptionKey e
  = let (raw_key, e') := aes_generate 256 e in (Ok (file_key raw_key), e').
Proof.
  unfold generateFileEncryptionKey, subtle.generateKey_AES_GCM, bind, draw.
  simpl. destruct (aes_generate 256 e) as [raw_key e']. reflexivity.
Qed.

End EngineFacts.

(** C1. File cipher round-trip: for every message, the empty one included,
    and every symmetric key that AES-GCM may encrypt and decrypt with,
    [encryptFile] returns a ciphertext and an IV from which [decryptFile],
    with the same key, returns exactly the message. *)
Theorem file_cipher_roundtrip {P : Platform} (Haead : aead_correct P)
    (m : Bytes) (k : CryptoKey) (e : Entropy) :
  aes_gcm_key k ->
  exists ciphertext iv e',
    encryptFile m k e = (Ok (ciphertext, iv), e')
    /\ decryptFile ciphertext k iv = Ok m.
Proof.
  intros (Hn & Henc & Hdec & raw_key & Hd).
  rewrite (encryptFile_spec _ _ _ _ Hn Henc Hd).
  destruct (getRandomValues 12 e) as [iv e'].
  exists (aes_gcm_encrypt raw_key iv m), (Base64.encode iv), e'.
  split; [reflexivity|].
  rewrite (decryptFile_spec _ _ _ _ Hn Hdec Hd), Haead. reflexivity.
Qed.

(** ** The vault *)

Section VaultFacts.

Context {P : Platform}.

Lemma importKey_raw_AES_GCM_256 (raw_key : Bytes) (extractable : bool) :
  length raw_key = 32%nat ->
  subtle.importKey_raw_AES_GCM raw_key extractable [encrypt; decrypt]
  = Ok {| type := secret; extractable := extractable;
          algorithm := AES_GCM 256; usages := [encrypt; decrypt];
          data := RawData raw_key |}.
Proof.
  intros Hlen. unfold subtle.importKey_raw_AES_GCM. rewrite Hlen.
  reflexivity.
Qed.

(** A key of 192 bits is imported where the platform implements them, and
    is an [OperationError] where it does not. *)
Lemma importKey_raw_AES_GCM_192 (raw_key : Bytes) (extractable : bool) :
  length raw_key = 24%nat ->
  subtle.importKey_raw_AES_GCM raw_key extractable [encrypt; decrypt]
  = if aes_192
    then Ok {| type := secret; extractable := extractable;
               algorithm := AES_GCM 192; usages := [encrypt; decrypt];
               data := RawData raw_key |}
    else Throw (operation_error (aes_length_refused 192)).
Proof.
  intros Hlen. unfold subtle.importKey_raw_AES_GCM. rewrite Hlen.
  unfold aes_length_ok. cbn. destruct aes_192; reflexivity.
Qed.

Lemma deriveKeyFromPassphrase_spec (Hlen : pbkdf2_length P)
    (passphrase : JSString) (salt : Bytes) :
  deriveKeyFromPassphrase passphrase salt = Ok (derived_key passphrase salt).
Proof.
  unfold deriveKeyFromPassphrase, subtle.importKey_raw_PBKDF2. simpl.
  unfold subtle.deriveKey_PBKDF2_AES_GCM. simpl.
  apply importKey_raw_AES_GCM_256, Hlen.
Qed.

Lemma derived_key_is_aes_gcm_key (passphrase : JSString) (salt : Bytes) :
  aes_gcm_key (derived_key passphrase salt).
Proof. repeat split. eexists. reflexivity. Qed.

(** What [encryptPrivateKey] returns for a private key of the manager. *)
Lemma encryptPrivateKey_spec (Hlen : pbkdf2_length P) (priv : RsaPrivate)
    (passphrase : JSString) (e : Entropy) :
  encryptPrivateKey (user_private_key priv) passphrase e
  = let (saltBuffer, e1) := getRandomValues 16 e in
    let (ivBuffer, e2) := getRandomValues 12 e1 in
    (Ok {| encryptedKey :=
             Base64.encode
               (aes_gcm_encrypt (derived_raw_key passphrase saltBuffer)
                  ivBuffer (pkcs8_export priv));
           salt := Base64.encode saltBuffer;
           iv := Base64.encode ivBuffer |}, e2).
Proof.
  unfold encryptPrivateKey, bind, draw, lift, ret.
  destruct (getRandomValues 16 e) as [saltBuffer e1].
  destruct (getRandomValues 12 e1) as [ivBuffer e2].
  rewrite (deriveKeyFromPassphrase_spec Hlen). simpl.
  rewrite !arrayBufferToBase64_encode. reflexivity.
Qed.

(** What [decryptPrivateKey] does with well-formed fields. *)
Lemma decryptPrivateKey_decoded (Hlen : pbkdf2_length P)
    (encryptedKey salt iv : JSString)
    (encryptedBuffer saltBuffer ivBuffer : Bytes) (passphrase : JSString) :
  base64ToArrayBuffer salt = Ok saltBuffer ->
  base64ToArrayBuffer iv = Ok ivBuffer ->
  base64ToArrayBuffer encryptedKey = Ok encryptedBuffer ->
  decryptPrivateKey encryptedKey salt iv passphrase
  = match aes_gcm_decrypt (derived_raw_key passphrase saltBuffer) ivBuffer
            encryptedBuffer with
    | Some decryptedBuffer =>
        subtle.importKey_pkcs8_RSA_OAEP decryptedBuffer SHA_256 true
          [decrypt; unwrapKey]
    | None =>
        Throw (operation_error
                 (aes_gcm_decrypt_failed
                    (derived_raw_key passphrase saltBuffer) ivBuffer
                    encryptedBuffer))
    end.
Proof.
  intros Hs Hi Hk. unfold decryptPrivateKey. rewrite Hs, Hi, Hk. simpl.
  rewrite (deriveKeyFromPassphrase_spec Hlen). simpl.
  rewrite (decrypt_AES_GCM_spec _ _ _ (derived_raw_key passphrase saltBuffer))
    by reflexivity.
  destruct (aes_gcm_decrypt _ _ _); reflexivity.
Qed.

Lemma decryptPrivateKey_spec (Hlen : pbkdf2_length P)
    (encryptedBuffer saltBuffer ivBuffer : Bytes) (passphrase : JSString) :
  decryptPrivateKey (Base64.encode encryptedBuffer) (Base64.encode saltBuffer)
    (Base64.encode ivBuffer) passphrase
  = match aes_gcm_decrypt (derived_raw_key passphrase saltBuffer) ivBuffer
            encryptedBuffer with
    | Some decryptedBuffer =>
        subtle.importKey_pkcs8_RSA_OAEP decryptedBuffer SHA_256 true
          [decrypt; unwrapKey]
    | None =>
        Throw (operation_error
                 (aes_gcm_decrypt_failed
                    (derived_raw_key passphrase saltBuffer) ivBuffer
                    encryptedBuffer))
    end.
Proof.
  apply decryptPrivateKey_decoded; auto using base64ToArrayBuffer_encode.
Qed.

(** Sealing under one passphrase and unsealing under another whose UTF-8
    bytes are the same gives the private key back. *)
Lemma seal_unseal_same_encoding (Haead : aead_correct P)
    (Hlen : pbkdf2_length P) (Hpkcs8 : pkcs8_roundtrip P)
    (priv : RsaPrivate) (p1 p2 : JSString) (e : Entropy) :
  TextEncoder_encode p1 = TextEncoder_encode p2 ->
  exists sealed e',
    encryptPrivateKey (user_private_key priv) p1 e = (Ok sealed, e')
    /\ decryptPrivateKey (encryptedKey sealed) (salt sealed) (iv sealed) p2
       = Ok (user_private_key priv).
Proof.
  intros Henc. rewrite (encryptPrivateKey_spec Hlen).
  destruct (getRandomValues 16 e) as [saltBuffer e1].
  destruct (getRandomValues 12 e1) as [ivBuffer e2].
  eexists _, _. split; [reflexivity|]. simpl.
  rewrite (decryptPrivateKey_spec Hlen).
  unfold derived_raw_key. rewrite <- Henc, Haead.
  unfold subtle.importKey_pkcs8_RSA_OAEP. simpl. rewrite Hpkcs8.
  reflexivity.
Qed.

End VaultFacts.

(** C2. Seal/unseal round-trip: for every private key of the keypair
    manager and every passphrase, [encryptPrivateKey] returns an encrypted
    key, a salt and an IV from which [decryptPrivateKey], with the same
    passphrase, returns a private key equal to the one sealed. *)
Theorem seal_unseal_roundtrip {P : Platform} (Haead : aead_correct P)
    (Hlen : pbkdf2_length P) (Hpkcs8 : pkcs8_roundtrip P)
    (priv : RsaPrivate) (p : JSString) (e : Entropy) :
  exists sealed e',
    encryptPrivateKey (user_private_key priv) p e = (Ok sealed, e')
    /\ decryptPrivateKey (encryptedKey sealed) (salt sealed) (iv sealed) p
       = Ok (user_private_key priv).
Proof. apply seal_unseal_same_encoding; auto. Qed.

Lemma base64ToArrayBuffer_throws (base64 : JSString) (e : JsError) :
  base64ToArrayBuffer base64 = Throw e -> e = DOMException InvalidCharacterError.
Proof.
  rewrite base64ToArrayBuffer_decode.
  destruct (Base64.decode base64); intros H; inversion H. reflexivity.
Qed.

(** A failed decryption is an [OperationError] of the unseal, with the
    text of the platform for it. *)
Lemma tag_rejects_unseal_fails {P : Platform} (Hlen : pbkdf2_length P)
    (sealed : SealedPrivateKey) (passphrase : JSString) (text : string) :
  tag_rejects sealed passphrase text ->
  decryptPrivateKey (encryptedKey sealed) (salt sealed) (iv sealed) passphrase
  = Throw (DOMException (OperationError text)).
Proof.
  intros (saltBuffer & ivBuffer & encryptedBuffer & Hs & Hi & Hk & Hreject
          & ->).
  rewrite (decryptPrivateKey_decoded Hlen _ _ _ _ _ _ _ Hs Hi Hk), Hreject.
  reflexivity.
Qed.

Section OtherKey.

Context {P : Platform}.
Context (Hother : aead_rejects_other_keys P) (Hlen : pbkdf2_length P).

(** The fields of a record that [encryptPrivateKey] returned. *)
Lemma sealed_fields (priv : RsaPrivate) (p : JSString) (e e' : Entropy)
    (sealed : SealedPrivateKey) :
  encryptPrivateKey (user_private_key priv) p e = (Ok sealed, e') ->
  exists saltBuffer ivBuffer,
    sealed
    = {| encryptedKey :=
           Base64.encode
             (aes_gcm_encrypt (derived_raw_key p saltBuffer) ivBuffer
                (pkcs8_export priv));
         salt := Base64.encode saltBuffer;
         iv := Base64.encode ivBuffer |}.
Proof.
  rewrite (encryptPrivateKey_spec Hlen).
  destruct (getRandomValues 16 e) as [saltBuffer e1].
  destruct (getRandomValues 12 e1) as [ivBuffer e2].
  intros H. inversion H. eauto.
Qed.

Lemma derived_raw_key_length (p : JSString) (saltBuffer : Bytes) :
  length (derived_raw_key p saltBuffer) = 32%nat.
Proof. apply Hlen. Qed.

(** Under a passphrase that derives another key, the decryption of what
    was sealed fails. *)
Lemma sealed_under_another_key (priv : RsaPrivate) (p1 p2 : JSString)
    (e e' : Entropy) (sealed : SealedPrivateKey) :
  encryptPrivateKey (user_private_key priv) p1 e = (Ok sealed, e') ->
  derives_another_key sealed p1 p2 ->
  exists text, tag_rejects sealed p2 text.
Proof.
  intros Hseal (saltBuffer & Hs & Hne).
  destruct (sealed_fields _ _ _ _ _ Hseal) as (s & i & ->).
  cbn [salt] in Hs. rewrite base64ToArrayBuffer_encode in Hs.
  inversion Hs; subst s.
  eexists. exists saltBuffer, i. eexists. cbn [salt iv encryptedKey].
  split; [apply base64ToArrayBuffer_encode|].
  split; [apply base64ToArrayBuffer_encode|].
  split; [apply base64ToArrayBuffer_encode|].
  split; [|reflexivity].
  apply Hother; auto using derived_raw_key_length.
Qed.

End OtherKey.



(** ** Keys that stay inside, keys that stay in their role *)

Section KeyFacts.

Context {P : Platform}.

Lemma non_extractable_never_exported (k : CryptoKey) (length : N) :
  algorithm k = AES_GCM length -> extractable k = false -> never_exported k.
Proof.
  intros Ha Hx. split.
  - intros format. unfold subtle.exportKey. rewrite Ha, Hx. reflexivity.
  - intros wrappingKey e. unfold subtle.wrapKey_raw_RSA_OAEP.
    destruct (negb (name_eqb _ _)); [reflexivity|].
    destruct (negb (usage_in _ _)); [reflexivity|].
    unfold bind, lift, subtle.exportKey. rewrite Ha, Hx. reflexivity.
Qed.

Lemma generateUserKeypair_spec (e : Entropy) :
  generateUserKeypair e
  = let (kp, e') := rsa_generate 4096 [x01; x00; x01] e in
    (Ok {| publicKey :=
             {| type := public; extractable := true;
                algorithm := RSA_OAEP SHA_256; usages := [encrypt; wrapKey];
                data := RsaPublicData (fst kp) |};
           privateKey := user_private_key (snd kp) |}, e').
Proof.
  unfold generateUserKeypair, subtle.generateKey_RSA_OAEP, bind, draw.
  simpl. destruct (rsa_generate 4096 [x01; x00; x01] e) as [kp e'].
  reflexivity.
Qed.

Lemma importKey_spki_returns (keyData : Bytes) (k : CryptoKey) :
  subtle.importKey_spki_RSA_OAEP keyData SHA_256 true [encrypt; wrapKey] = Ok k ->
  type k = public /\ usages k = [encrypt; wrapKey].
Proof.
  unfold subtle.importKey_spki_RSA_OAEP. simpl.
  destruct (spki_import keyData); [|discriminate].
  intros H. inversion H. split; reflexivity.
Qed.

Lemma importKey_pkcs8_returns (keyData : Bytes) (k : CryptoKey) :
  subtle.importKey_pkcs8_RSA_OAEP keyData SHA_256 true [decrypt; unwrapKey] = Ok k ->
  exists priv, pkcs8_import keyData = Some priv /\ k = user_private_key priv.
Proof.
  unfold subtle.importKey_pkcs8_RSA_OAEP. simpl.
  destruct (pkcs8_import keyData) as [priv|]; [|discriminate].
  intros H. inversion H. exists priv. split; reflexivity.
Qed.

Lemma rbind_Ok {A B} (r : Result A) (k : A -> Result B) (b : B) :
  rbind r k = Ok b -> exists a, r = Ok a /\ k a = Ok b.
Proof. destruct r as [a|x]; simpl; [eauto|discriminate]. Qed.

Lemma decryptPrivateKey_returns (encryptedKey salt iv passphrase : JSString)
    (k : CryptoKey) :
  decryptPrivateKey encryptedKey salt iv passphrase = Ok k ->
  exists priv, k = user_private_key priv.
Proof.
  unfold decryptPrivateKey. intros H.
  apply rbind_Ok in H as (saltBuffer & _ & H).
  apply rbind_Ok in H as (ivBuffer & _ & H).
  apply rbind_Ok in H as (encryptedBuffer & _ & H).
  apply rbind_Ok in H as (derivedKey & _ & H).
  apply rbind_Ok in H as (decryptedBuffer & _ & H).
  apply importKey_pkcs8_returns in H as (priv & _ & ->). eauto.
Qed.

Lemma public_usages_cannot_unwrap (k : CryptoKey) :
  usages k = [encrypt; wrapKey] -> cannot_unwrap k.
Proof.
  intros Hu wrappedKey length extractable keyUsages.
  unfold subtle.unwrapKey_raw_RSA_OAEP_AES_GCM. rewrite Hu. simpl.
  destruct (negb (name_eqb _ _)); reflexivity.
Qed.

Lemma private_usages_cannot_wrap (k : CryptoKey) :
  usages k = [decrypt; unwrapKey] -> cannot_wrap k.
Proof.
  intros Hu key e. unfold subtle.wrapKey_raw_RSA_OAEP. rewrite Hu. simpl.
  destruct (negb (name_eqb _ _)); reflexivity.
Qed.

End KeyFacts.

(** C10. For every passphrase and salt, [deriveKeyFromPassphrase] returns
    a key that is not extractable and may only encrypt and decrypt: no
    [exportKey] and no [wrapKey] gives its raw bytes, each fails with
    [InvalidAccessError]. Seal and unseal take their key from this one
    function. *)
Theorem derived_key_never_exported {P : Platform} (Hlen : pbkdf2_length P)
    (passphrase : JSString) (salt : Bytes) :
  exists k,
    deriveKeyFromPassphrase passphrase salt = Ok k
    /\ extractable k = false
    /\ usages k = [encrypt; decrypt]
    /\ never_exported k.
Proof.
  exists (derived_key passphrase salt).
  split; [apply (deriveKeyFromPassphrase_spec Hlen)|].
  split; [reflexivity|]. split; [reflexivity|].
  apply (non_extractable_never_exported _ 256); reflexivity.
Qed.

(** C9. Capability scoping: a key handed out in the public role, by
    [generateUserKeypair] or [importPublicKey], is a public key whose only
    usages are encrypt and wrapKey, and unwrapping with it is refused; a
    key handed out in the private role, by [generateUserKeypair],
    [importPrivateKey] or [decryptPrivateKey], is a private key whose only
    usages are decrypt and unwrapKey, and wrapping with it is refused. *)
Theorem capability_scoping {P : Platform} (role : KeyType) (k : CryptoKey) :
  handed_out role k ->
  type k = role
  /\ usages k = role_usages role
  /\ match role with
     | public => cannot_unwrap k
     | private => cannot_wrap k
     | secret => False
     end.
Proof.
  intros H.
  assert (Hk : type k = role /\ usages k = role_usages role
               /\ role <> secret).
  { destruct H as [e kp e' H|base64Key k H|e kp e' H|base64Key k H
                   |encryptedKey salt iv passphrase k H].
    - rewrite generateUserKeypair_spec in H.
      destruct (rsa_generate 4096 [x01; x00; x01] e) as [pair e1].
      inversion H. repeat split; discriminate.
    - unfold importPublicKey in H. apply rbind_Ok in H as (b & _ & H).
      apply importKey_spki_returns in H as [Ht Hu]. repeat split; auto;
        discriminate.
    - rewrite generateUserKeypair_spec in H.
      destruct (rsa_generate 4096 [x01; x00; x01] e) as [pair e1].
      inversion H. repeat split; discriminate.
    - unfold importPrivateKey in H. apply rbind_Ok in H as (b & _ & H).
      apply importKey_pkcs8_returns in H as (priv & _ & ->).
      repeat split; discriminate.
    - apply decryptPrivateKey_returns in H as (priv & ->).
      repeat split; discriminate. }
  destruct Hk as (Ht & Hu & Hrole). repeat split; auto.
  destruct role; simpl in Hu.
  - apply public_usages_cannot_unwrap, Hu.
  - apply private_usages_cannot_wrap, Hu.
  - congruence.
Qed.

(** ** The key wrapper *)

(** C4. Wrap/unwrap round-trip: for every 256-bit file encryption key and
    every pair of a public key that may wrap and a private key that may
    unwrap, the two halves of one generated pair, [wrapSymmetricKey]
    returns a text from which [unwrapSymmetricKey] returns a key equal to
    the file encryption key. *)
Theorem wrap_unwrap_roundtrip {P : Platform} (Hrsa : rsa_oaep_correct P)
    (raw_key : Bytes) (pub priv : CryptoKey)
    (pub_data : RsaPublic) (priv_data : RsaPrivate) (e : Entropy) :
  length raw_key = 32%nat ->
  generated_pair P pub_data priv_data ->
  wrapping_key pub pub_data ->
  unwrapping_key priv priv_data ->
  exists wrapped e',
    wrapSymmetricKey (file_key raw_key) pub e = (Ok wrapped, e')
    /\ unwrapSymmetricKey wrapped priv = Ok (file_key raw_key).
Proof.
  intros Hlen Hpair (Wt & Wn & Wu & Wd) (Ut & Un & Uu & Ud).
  destruct (Hrsa _ _ Hpair raw_key e) as (c & Hc & Hdec); [lia|].
  unfold wrapSymmetricKey, subtle.wrapKey_raw_RSA_OAEP, bind, draw, lift, ret.
  rewrite Wn, Wu, Wt, Wd. simpl.
  destruct (rsa_oaep_encrypt pub_data raw_key e) as [oc e'].
  simpl in Hc. subst oc. rewrite arrayBufferToBase64_encode.
  eexists _, _. split; [reflexivity|].
  unfold unwrapSymmetricKey. rewrite base64ToArrayBuffer_encode. simpl.
  unfold subtle.unwrapKey_raw_RSA_OAEP_AES_GCM.
  rewrite Un, Uu, Ut, Ud, Hdec. simpl.
  apply importKey_raw_AES_GCM_256, Hlen.
Qed.

(** ** The download flow *)

Section FlowFacts.

Import FileList Flow.

Context {P : Platform}.

Lemma on_error_trace (error : JsError) :
  fst (on_error error) = [console_error error].
Proof.
  unfold on_error, hbind, tell, hthrow.
  destruct (includes _ _ || includes _ _); reflexivity.
Qed.

Lemma on_error_throws (error : JsError) :
  exists surfaced, snd (on_error error) = Throw surfaced.
Proof.
  unfold on_error, hbind, tell, hthrow.
  destruct (includes _ _ || includes _ _); simpl; eauto.
Qed.

Lemma on_error_eta (error : JsError) :
  on_error error = ([console_error error], snd (on_error error)).
Proof.
  rewrite <- on_error_trace. destruct (on_error error). reflexivity.
Qed.

(** The flow when the unseal fails. *)
Lemma handleDecrypt_unseal_fails (w : World) (passphrase : JSString)
    (f : EncryptedFile.t) (sealed : SealedPrivateKey) (error : JsError) :
  stored_key w f sealed ->
  decryptPrivateKey (encryptedKey sealed) (salt sealed) (iv sealed) passphrase
  = Throw error ->
  exists user_id,
    handleDecrypt w passphrase
    = ([setDecrypting (Some (EncryptedFile.id f));
        select_encrypted_private_key user_id;
        call_decryptPrivateKey;
        console_error error;
        setDecrypting None],
       snd (on_error error)).
Proof.
  intros (user_id & keyData & Hu & Hf & Hk & Hp) Hfail. exists user_id.
  unfold handleDecrypt. rewrite Hu, Hf, Hk.
  unfold hbind, try_finally, try_catch, tell, hlift, hret. simpl.
  rewrite Hp, Hfail. rewrite (on_error_eta error). reflexivity.
Qed.

(** The flow once it has the blob and the file key. *)
Lemma handleDecrypt_at_decryptFile (w : World) (passphrase : JSString)
    (f : EncryptedFile.t) (blob : Bytes) (key : CryptoKey) :
  reaches_decryptFile w passphrase f blob key ->
  snd (handleDecrypt w passphrase)
  = match decryptFile blob key (EncryptedFile.iv f) with
    | Ok _ => Ok tt
    | Throw error => snd (on_error error)
    end.
Proof.
  intros (sealed & privateKey & (user_id & keyData & Hu & Hf & Hk & Hp)
          & Hunseal & Hblob & Hunwrap).
  unfold handleDecrypt. rewrite Hu, Hf, Hk.
  unfold hbind, try_finally, try_catch, tell, hlift, hret. simpl.
  rewrite Hp, Hunseal, Hblob, Hunwrap.
  destruct (decryptFile blob key (EncryptedFile.iv f)) as [content|error];
    [reflexivity|].
  rewrite (on_error_eta error). reflexivity.
Qed.

(** Every trace either has no access to the file, or starts with the
    call of the unseal, two events in. *)
Lemma handleDecrypt_trace (w : World) (passphrase : JSString) :
  forallb (fun ev => negb (file_access ev)) (fst (handleDecrypt w passphrase))
  = true
  \/ exists a b rest,
       fst (handleDecrypt w passphrase)
       = a :: b :: call_decryptPrivateKey :: rest
       /\ file_access a = false /\ file_access b = false.
Proof.
  unfold handleDecrypt.
  destruct (user w) as [user_id|]; [|left; reflexivity].
  destruct (selectedFile w) as [f|]; [|left; reflexivity].
  unfold hbind, try_finally, try_catch, tell, hlift, hret, hthrow.
  destruct (user_keys w user_id) as [keyData| |keyError]; simpl;
    try rewrite on_error_eta; try (left; reflexivity).
  destruct (JSON_parse keyData) as [sealed|x];
    try (rewrite on_error_eta; left; reflexivity).
  right.
  destruct (decryptPrivateKey _ _ _ _) as [privateKey|x];
    [|rewrite on_error_eta; simpl; eexists _, _, _; repeat split].
  destruct (storage w _) as [blob|x];
    [|rewrite on_error_eta; simpl; eexists _, _, _; repeat split].
  destruct (unwrapSymmetricKey _ _) as [key|x];
    [|rewrite on_error_eta; simpl; eexists _, _, _; repeat split].
  destruct (decryptFile _ _ _) as [content|x];
    [|rewrite on_error_eta; simpl; eexists _, _, _; repeat split].
  simpl. eexists _, _, _. repeat split.
Qed.

(** In every execution the unseal is called before the file is touched. *)
Lemma unseal_precedes (w : World) (passphrase : JSString) (ev : Event) :
  file_access ev = true ->
  precedes call_decryptPrivateKey ev (fst (handleDecrypt w passphrase)).
Proof.
  intros Hev pre post Ht.
  destruct (handleDecrypt_trace w passphrase) as [Hnone|(a & b & rest & E & Ha & Hb)].
  - rewrite Ht, forallb_app in Hnone. simpl in Hnone. rewrite Hev in Hnone.
    simpl in Hnone. rewrite andb_false_r in Hnone. discriminate.
  - rewrite E in Ht.
    destruct pre as [|x [|y [|z pre]]]; simpl in Ht; inversion Ht; subst.
    + congruence.
    + congruence.
    + discriminate.
    + right. right. left. reflexivity.
Qed.

End FlowFacts.

(** What the [catch] block makes of an [OperationError]: by its text, an
    error about the passphrase, or the exception as it is. *)
Lemma on_error_operation {P : Platform} (text : string) :
  snd (FileList.on_error (DOMException (OperationError text)))
  = if Flow.taken_for_passphrase text
    then Throw (Error "Invalid passphrase. Please try again.")
    else Throw (DOMException (OperationError text)).
Proof.
  unfold FileList.on_error, FileList.hbind, FileList.tell, FileList.hthrow,
    Flow.taken_for_passphrase. cbn [message].
  destruct (includes text "OperationError" || includes text "decrypt");
    reflexivity.
Qed.



(** * More of the code *)

(** ** Exporting and importing the keys *)

Section ExportImport.

Context {P : Platform}.

(** What the keys of each role are. *)
Lemma handed_out_shape (role : KeyType) (k : CryptoKey) :
  handed_out role k ->
  match role with
  | public => exists pk, k = user_public_key pk
  | private => exists sk, k = user_private_key sk
  | secret => False
  end.
Proof.
  intros H.
  destruct H as [e kp e' H|base64Key k H|e kp e' H|base64Key k H
                 |encryptedKey salt iv passphrase k H].
  - rewrite generateUserKeypair_spec in H.
    destruct (rsa_generate 4096 [x01; x00; x01] e) as [pair e1].
    inversion H. eexists. reflexivity.
  - unfold importPublicKey in H. apply rbind_Ok in H as (b & _ & H).
    unfold subtle.importKey_spki_RSA_OAEP in H. simpl in H.
    destruct (spki_import b) as [pk|]; [|discriminate].
    inversion H. eexists. reflexivity.
  - rewrite generateUserKeypair_spec in H.
    destruct (rsa_generate 4096 [x01; x00; x01] e) as [pair e1].
    inversion H. eexists. reflexivity.
  - unfold importPrivateKey in H. apply rbind_Ok in H as (b & _ & H).
    apply importKey_pkcs8_returns in H as (sk & _ & ->). eauto.
  - apply decryptPrivateKey_returns in H. exact H.
Qed.

Lemma export_import_public (Hspki : spki_roundtrip P) (pk : RsaPublic) :
  exportPublicKey (user_public_key pk) = Ok (Base64.encode (spki_export pk))
  /\ importPublicKey (Base64.encode (spki_export pk)) = Ok (user_public_key pk).
Proof.
  split.
  - unfold exportPublicKey. simpl. apply arrayBufferToBase64_encode.
  - unfold importPublicKey. rewrite base64ToArrayBuffer_encode. simpl.
    unfold subtle.importKey_spki_RSA_OAEP. simpl. rewrite Hspki. reflexivity.
Qed.

Lemma export_import_private (Hpkcs8 : pkcs8_roundtrip P) (sk : RsaPrivate) :
  exportPrivateKey (user_private_key sk) = Ok (Base64.encode (pkcs8_export sk))
  /\ importPrivateKey (Base64.encode (pkcs8_export sk))
     = Ok (user_private_key sk).
Proof.
  split.
  - unfold exportPrivateKey. simpl. apply arrayBufferToBase64_encode.
  - unfold importPrivateKey. rewrite base64ToArrayBuffer_encode. simpl.
    unfold subtle.importKey_pkcs8_RSA_OAEP. simpl. rewrite Hpkcs8.
    reflexivity.
Qed.

End ExportImport.

(** X1. A public key handed out by the keypair manager is exported by
    [exportPublicKey] to a text that [importPublicKey] reads back as an
    equal key. *)
Theorem public_key_export_import {P : Platform} (Hspki : spki_roundtrip P)
    (k : CryptoKey) :
  handed_out public k ->
  exists text, exportPublicKey k = Ok text /\ importPublicKey text = Ok k.
Proof.
  intros H. apply handed_out_shape in H as (pk & ->).
  destruct (export_import_public Hspki pk) as [E I]. eauto.
Qed.

(** X2. A private key handed out by the keypair manager is exported by
    [exportPrivateKey] to a text that [importPrivateKey] reads back as an
    equal key. *)
Theorem private_key_export_import {P : Platform} (Hpkcs8 : pkcs8_roundtrip P)
    (k : CryptoKey) :
  handed_out private k ->
  exists text, exportPrivateKey k = Ok text /\ importPrivateKey text = Ok k.
Proof.
  intros H. apply handed_out_shape in H as (sk & ->).
  destruct (export_import_private Hpkcs8 sk) as [E I]. eauto.
Qed.

(** X3. Each export function refuses the other half of a pair:
    [exportPublicKey] on a private key of the manager and
    [exportPrivateKey] on a public key of the manager fail with
    [InvalidAccessError], and no text is returned. *)
Theorem export_refuses_other_half {P : Platform} (role : KeyType)
    (k : CryptoKey) :
  handed_out role k ->
  match role with
  | public => exportPrivateKey k = Throw (DOMException InvalidAccessError)
  | private => exportPublicKey k = Throw (DOMException InvalidAccessError)
  | secret => False
  end.
Proof.
  intros H. apply handed_out_shape in H. destruct role.
  - destruct H as (pk & ->). reflexivity.
  - destruct H as (sk & ->). reflexivity.
  - exact H.
Qed.

(** X4. [importPublicKey] and [importPrivateKey] fail in two ways only:
    with [InvalidCharacterError], exactly when the text is malformed
    base64, and with [DataError], when the bytes are not a key of the
    expected kind; otherwise they return a key of their role. *)
Theorem import_errors {P : Platform} (text : JSString) :
  (importPublicKey text = Throw (DOMException InvalidCharacterError)
   <-> malformed_base64 text)
  /\ (importPrivateKey text = Throw (DOMException InvalidCharacterError)
      <-> malformed_base64 text)
  /\ ((exists pk, importPublicKey text = Ok (user_public_key pk))
      \/ importPublicKey text = Throw (DOMException InvalidCharacterError)
      \/ importPublicKey text = Throw (DOMException DataError))
  /\ ((exists sk, importPrivateKey text = Ok (user_private_key sk))
      \/ importPrivateKey text = Throw (DOMException InvalidCharacterError)
      \/ importPrivateKey text = Throw (DOMException DataError)).
Proof.
  rewrite <- decode_None. unfold importPublicKey, importPrivateKey.
  rewrite base64ToArrayBuffer_decode.
  destruct (Base64.decode text) as [b|]; simpl.
  - unfold subtle.importKey_spki_RSA_OAEP, subtle.importKey_pkcs8_RSA_OAEP.
    simpl.
    destruct (spki_import b) as [pk|]; destruct (pkcs8_import b) as [sk|];
      repeat split; try discriminate; eauto.
  - repeat split; auto.
Qed.

(** ** The shape of what is encoded and sealed *)

Lemma encode_cons3 (a b c : byte) (rest : Bytes) :
  Base64.encode (a :: b :: c :: rest)
  = [Base64.char_of (Byte.to_N a / 4);
     Base64.char_of (Byte.to_N a mod 4 * 16 + Byte.to_N b / 16);
     Base64.char_of (Byte.to_N b mod 16 * 4 + Byte.to_N c / 64);
     Base64.char_of (Byte.to_N c mod 64)]
    ++ Base64.encode rest.
Proof.
  unfold Base64.encode. rewrite encode_body_cons3. simpl length.
  rewrite padding_cons3, <- app_assoc. reflexivity.
Qed.

Lemma encode_exact_length (bs : Bytes) :
  length (Base64.encode bs) = (4 * ((length bs + 2) / 3))%nat.
Proof.
  induction bs as [|a|a b|a b c rest IH] using bytes_ind3; try reflexivity.
  rewrite encode_cons3, length_app, IH. simpl length.
  replace (S (S (S (length rest))) + 2)%nat with (length rest + 2 + 1 * 3)%nat
    by lia.
  rewrite Nat.div_add by discriminate. lia.
Qed.

Lemma encode_characters (bs : Bytes) :
  forallb (fun c => Base64.in_alphabet c || (c =? Base64.pad))
    (Base64.encode bs) = true.
Proof.
  unfold Base64.encode. rewrite forallb_app. apply andb_true_iff. split.
  - pose proof (encode_body_alphabet bs) as H.
    rewrite forallb_forall in *. intros c Hc. rewrite (H c Hc). reflexivity.
  - unfold Base64.padding. destruct (length bs mod 3)%nat as [|[|[|n]]];
      reflexivity.
Qed.

(** X5. [arrayBufferToBase64] never throws: the text for [n] bytes has
    four characters for every three bytes, rounded up, and each is of the
    base64 alphabet or '='. *)
Theorem encoding_shape (b : Bytes) :
  exists text,
    arrayBufferToBase64 b = Ok text
    /\ length text = (4 * ((length b + 2) / 3))%nat
    /\ forallb (fun c => Base64.in_alphabet c || (c =? Base64.pad)) text
       = true.
Proof.
  exists (Base64.encode b). split; [apply arrayBufferToBase64_encode|].
  split; [apply encode_exact_length|apply encode_characters].
Qed.

(** X6. The record that [encryptPrivateKey] returns for a private key of
    the manager has three well-formed base64 fields: the salt decodes to
    16 bytes, the IV to 12 bytes, and the encrypted key decodes. *)
Theorem sealed_record_format {P : Platform} (Hlen : pbkdf2_length P)
    (Hrandom : random_length P) (priv : RsaPrivate) (p : JSString)
    (e : Entropy) :
  exists sealed e' saltBuffer ivBuffer encryptedBuffer,
    encryptPrivateKey (user_private_key priv) p e = (Ok sealed, e')
    /\ base64ToArrayBuffer (salt sealed) = Ok saltBuffer
    /\ length saltBuffer = 16%nat
    /\ base64ToArrayBuffer (iv sealed) = Ok ivBuffer
    /\ length ivBuffer = 12%nat
    /\ base64ToArrayBuffer (encryptedKey sealed) = Ok encryptedBuffer.
Proof.
  rewrite (encryptPrivateKey_spec Hlen).
  pose proof (Hrandom 16%nat e) as H16.
  destruct (getRandomValues 16 e) as [saltBuffer e1].
  pose proof (Hrandom 12%nat e1) as H12.
  destruct (getRandomValues 12 e1) as [ivBuffer e2].
  eexists _, _, _, _, _. split; [reflexivity|]. simpl.
  rewrite !base64ToArrayBuffer_encode. repeat split; assumption.
Qed.

(** ** The passphrase generator *)

Section PassphraseFacts.

Context {P : Platform}.

Lemma wordList_words :
  Forall (fun w => (5 <= length w <= 8)%nat
                   /\ forallb passphrase_char w = true) wordList.
Proof.
  assert (H : forallb
                (fun w => (5 <=? length w)%nat && (length w <=? 8)%nat
                          && forallb passphrase_char w) wordList = true)
    by (vm_compute; reflexivity).
  rewrite forallb_forall in H. apply List.Forall_forall. intros w Hin.
  specialize (H w Hin).
  apply andb_true_iff in H as [H Hc]. apply andb_true_iff in H as [Hlo Hhi].
  apply Nat.leb_le in Hlo, Hhi. auto.
Qed.

Lemma passphrase_loop_words (rounds : nat) :
  forall (words : list JSString) (e : Entropy),
  exists new,
    fst (passphrase_loop rounds words e) = words ++ new
    /\ length new = rounds
    /\ Forall (fun w => In w wordList) new.
Proof.
  induction rounds as [|rounds IH]; intros words e.
  - exists []. rewrite app_nil_r. repeat split. constructor.
  - cbn [passphrase_loop].
    destruct (random_uint32 e) as [r e'].
    set (w := nth _ wordList []).
    destruct (IH (words ++ [w]) e') as (new & E & Hn & Hall).
    exists (w :: new). rewrite E, <- app_assoc. repeat split.
    + simpl. rewrite Hn. reflexivity.
    + constructor; [|exact Hall]. subst w. apply nth_In.
      assert (r mod N.of_nat (length wordList) < N.of_nat (length wordList)).
      { apply N.mod_lt. discriminate. }
      lia.
Qed.

Lemma join_words (words : list JSString) :
  Forall (fun w => (5 <= length w <= 8)%nat
                   /\ forallb passphrase_char w = true) words ->
  forallb passphrase_char (join (lit "-") words) = true
  /\ (6 * length words <= length (join (lit "-") words) + 1)%nat
  /\ (length (join (lit "-") words) <= 9 * length words)%nat
  /\ (words <> [] ->
      (length (join (lit "-") words) + 1 <= 9 * length words)%nat).
Proof.
  induction 1 as [|w rest [Hw Hc] Hrest (IHc & IHlo & IHhi & IHne)].
  - simpl. split; [reflexivity|]. split; [lia|]. split; [lia|].
    intros Hne. exfalso. apply Hne. reflexivity.
  - destruct rest as [|w' rest'].
    + simpl. repeat split; intros; try lia. exact Hc.
    + assert (IHne' : (length (join (lit "-") (w' :: rest')) + 1
                       <= 9 * length (w' :: rest'))%nat)
        by (apply IHne; discriminate).
      change (join (lit "-") (w :: w' :: rest'))
        with (w ++ lit "-" ++ join (lit "-") (w' :: rest')).
      remember (join (lit "-") (w' :: rest')) as J eqn:EJ in *.
      rewrite !forallb_app, !length_app, Hc, IHc.
      change (length (lit "-")) with 1%nat.
      cbn [length] in *. clear IHne Hrest EJ.
      split; [vm_compute; reflexivity|].
      unfold JSString in *.
      split; [lia|]. split; [lia|]. intros _. lia.
Qed.

End PassphraseFacts.

(** X7. [generateSecurePassphrase] returns as many words of its list as
    were asked for, joined by '-': lower-case letters and hyphens only,
    and between 6n - 1 and 9n characters for n words, so that three words
    or more pass the twelve-character check of the key setup. *)
Theorem generated_passphrase {P : Platform} (wordCount : nat) (e : Entropy) :
  let p := fst (generateSecurePassphrase wordCount e) in
  (exists words,
     length words = wordCount
     /\ Forall (fun w => In w wordList) words
     /\ p = join (lit "-") words)
  /\ forallb passphrase_char p = true
  /\ (6 * wordCount <= length p + 1)%nat
  /\ (length p <= 9 * wordCount)%nat.
Proof.
  unfold generateSecurePassphrase.
  destruct (passphrase_loop_words wordCount [] e) as (words & E & Hn & Hall).
  destruct (passphrase_loop wordCount [] e) as [ws e']. simpl in E. subst ws.
  simpl.
  assert (Hw : Forall (fun w => (5 <= length w <= 8)%nat
                                /\ forallb passphrase_char w = true) words).
  { rewrite List.Forall_forall in *. intros w Hin.
    pose proof wordList_words as HL. rewrite List.Forall_forall in HL.
    apply HL, Hall, Hin. }
  destruct (join_words words Hw) as (Hc & Hlo & Hhi & _).
  rewrite Hn in Hlo, Hhi. repeat split; eauto.
Qed.

(** ** The dialog and the edges of the download flow *)

(** X8. The dialog never calls [onDecrypt] with an empty passphrase.
    When the decryption succeeds it closes and clears the passphrase;
    otherwise it stays as it is, keeps the passphrase and shows an error
    that is never empty. It never leaves [loading] set. *)
Theorem dialog_outcome {P : Platform} (onDecrypt : JSString -> Result unit)
    (st : DecryptDialog.State) :
  let st' := fst (DecryptDialog.handleDecrypt onDecrypt st) in
  let calls := snd (DecryptDialog.handleDecrypt onDecrypt st) in
  (calls = [] \/ (calls = [DecryptDialog.passphrase st]
                  /\ DecryptDialog.passphrase st <> []))
  /\ ((calls = [DecryptDialog.passphrase st]
       /\ onDecrypt (DecryptDialog.passphrase st) = Ok tt
       /\ st' = {| DecryptDialog.passphrase := [];
                   DecryptDialog.loading := false;
                   DecryptDialog.error := "";
                   DecryptDialog.open := false |})
      \/ (DecryptDialog.error st' <> ""%string
          /\ DecryptDialog.passphrase st' = DecryptDialog.passphrase st
          /\ DecryptDialog.open st' = DecryptDialog.open st
          /\ (calls <> [] -> DecryptDialog.loading st' = false))).
Proof.
  unfold DecryptDialog.handleDecrypt.
  destruct (DecryptDialog.passphrase st) as [|c p] eqn:Hp; simpl.
  - split; [left; reflexivity|]. right.
    split; [discriminate|]. split; [exact Hp|]. split; [reflexivity|].
    intros H. exfalso. apply H. reflexivity.
  - split; [right; split; [reflexivity|discriminate]|].
    destruct (onDecrypt (c :: p)) as [[]|err]; simpl.
    + left. repeat split.
    + right. split.
      { unfold DecryptDialog.or_else. destruct (message err); discriminate. }
      split; [exact Hp|]. split; reflexivity.
Qed.

Section FlowEdges.

Import FileList Flow MoreFlow.

Context {P : Platform}.

(** The flow when everything succeeds. *)
Lemma handleDecrypt_succeeds (w : World) (passphrase : JSString)
    (f : EncryptedFile.t) (blob : Bytes) (key : CryptoKey) (content : Bytes) :
  reaches_decryptFile w passphrase f blob key ->
  decryptFile blob key (EncryptedFile.iv f) = Ok content ->
  snd (handleDecrypt w passphrase) = Ok tt
  /\ In (save_file (EncryptedFile.filename f) content)
       (fst (handleDecrypt w passphrase)).
Proof.
  intros (sealed & privateKey & (user_id & keyData & Hu & Hf & Hk & Hp)
          & Hunseal & Hblob & Hunwrap) Hdec.
  unfold handleDecrypt. rewrite Hu, Hf, Hk.
  unfold hbind, try_finally, try_catch, tell, hlift, hret. simpl.
  rewrite Hp, Hunseal, Hblob, Hunwrap, Hdec. simpl. split; [reflexivity|].
  do 6 right. left. reflexivity.
Qed.

(** With a user and a file, the trace opens and closes the indicator. *)
Lemma handleDecrypt_brackets (w : World) (passphrase user_id : JSString)
    (f : EncryptedFile.t) :
  user w = Some user_id ->
  selectedFile w = Some f ->
  brackets (setDecrypting (Some (EncryptedFile.id f))) (setDecrypting None)
    (fst (handleDecrypt w passphrase)).
Proof.
  intros Hu Hf. unfold handleDecrypt, brackets. rewrite Hu, Hf.
  unfold hbind, try_finally, try_catch, tell, hlift, hret, hthrow.
  destruct (user_keys w user_id) as [keyData| |keyError]; simpl;
    try rewrite on_error_eta; simpl;
    try (eexists [_; _]; reflexivity).
  destruct (JSON_parse keyData) as [sealed|x];
    [|rewrite on_error_eta; simpl; eexists [_; _]; reflexivity].
  destruct (decryptPrivateKey _ _ _ _) as [privateKey|x];
    [|rewrite on_error_eta; simpl; eexists [_; _; _]; reflexivity].
  destruct (storage w _) as [blob|x];
    [|rewrite on_error_eta; simpl; eexists [_; _; _; _]; reflexivity].
  destruct (unwrapSymmetricKey _ _) as [key|x];
    [|rewrite on_error_eta; simpl; eexists [_; _; _; _; _]; reflexivity].
  destruct (decryptFile _ _ _) as [content|x];
    [|rewrite on_error_eta; simpl; eexists [_; _; _; _; _; _]; reflexivity].
  simpl. eexists [_; _; _; _; _; _; _]. reflexivity.
Qed.

End FlowEdges.

(** X9. Without a signed-in user or without a selected file,
    [handleDecrypt] of the file list does nothing and does not fail; with
    both, whatever happens in between, its trace begins by setting the
    decrypting indicator to the file and ends by clearing it. *)
Theorem decrypting_indicator_is_cleared {P : Platform} (w : FileList.World)
    (passphrase : JSString) :
  match FileList.user w, FileList.selectedFile w with
  | Some user_id, Some f =>
      MoreFlow.brackets
        (FileList.setDecrypting (Some (FileList.EncryptedFile.id f)))
        (FileList.setDecrypting None)
        (fst (FileList.handleDecrypt w passphrase))
  | _, _ => FileList.handleDecrypt w passphrase = ([], Ok tt)
  end.
Proof.
  destruct (FileList.user w) as [user_id|] eqn:Hu.
  - destruct (FileList.selectedFile w) as [f|] eqn:Hf.
    + apply (handleDecrypt_brackets _ _ user_id); assumption.
    + unfold FileList.handleDecrypt. rewrite Hu, Hf. reflexivity.
  - unfold FileList.handleDecrypt. rewrite Hu. reflexivity.
Qed.

(** X10. When the user has no row in [user_keys], [handleDecrypt] fails
    with the error "Encryption keys not found. Please set up your keys
    first.", passed on as it is and not turned into "Invalid passphrase";
    no unseal is attempted and the file is not touched. *)
Theorem missing_keys_are_reported {P : Platform} (w : FileList.World)
    (passphrase user_id : JSString) (f : FileList.EncryptedFile.t) :
  FileList.user w = Some user_id ->
  FileList.selectedFile w = Some f ->
  FileList.user_keys w user_id = FileList.NoRow ->
  FileList.handleDecrypt w passphrase
  = ([FileList.setDecrypting (Some (FileList.EncryptedFile.id f));
      FileList.select_encrypted_private_key user_id;
      FileList.console_error
        (Error "Encryption keys not found. Please set up your keys first.");
      FileList.setDecrypting None],
     Throw (Error "Encryption keys not found. Please set up your keys first.")).
Proof.
  intros Hu Hf Hk. unfold FileList.handleDecrypt. rewrite Hu, Hf, Hk.
  reflexivity.
Qed.

(** X11. Through the dialog, a passphrase under which the decryption of
    the stored sealed key fails leaves the dialog open with the passphrase
    kept and [loading] cleared, and the error shown is decided by the text
    that the platform gives the failure: "Invalid passphrase. Please try
    again." when that text names "OperationError" or "decrypt", else the
    text itself, else, when the text is empty, "Decryption failed. Please
    check your passphrase.". *)
Theorem dialog_after_wrong_passphrase {P : Platform} (Hlen : pbkdf2_length P)
    (w : FileList.World) (f : FileList.EncryptedFile.t)
    (sealed : SealedPrivateKey) (st : DecryptDialog.State) (text : string) :
  Flow.stored_key w f sealed ->
  tag_rejects sealed (DecryptDialog.passphrase st) text ->
  DecryptDialog.passphrase st <> [] ->
  let st' :=
    fst (DecryptDialog.handleDecrypt
           (fun p => snd (FileList.handleDecrypt w p)) st) in
  DecryptDialog.open st' = DecryptDialog.open st
  /\ DecryptDialog.passphrase st' = DecryptDialog.passphrase st
  /\ DecryptDialog.loading st' = false
  /\ DecryptDialog.error st'
     = if Flow.taken_for_passphrase text
       then "Invalid passphrase. Please try again."%string
       else DecryptDialog.or_else text
              "Decryption failed. Please check your passphrase.".
Proof.
  intros Hstored Hreject Hne.
  pose proof (tag_rejects_unseal_fails Hlen _ _ _ Hreject) as Hfail.
  destruct (handleDecrypt_unseal_fails _ _ _ _ _ Hstored Hfail)
    as (user_id & E).
  unfold DecryptDialog.handleDecrypt.
  destruct (DecryptDialog.passphrase st) as [|c p] eqn:Hp; [congruence|].
  cbn [is_nil]. cbv zeta. cbn [DecryptDialog.setLoading DecryptDialog.setError
    DecryptDialog.passphrase]. rewrite E. cbn [snd].
  rewrite on_error_operation.
  destruct (Flow.taken_for_passphrase text); simpl; rewrite Hp; auto.
Qed.

(** ** Setting the keys up *)

Lemma string_eqb_eq (a b : JSString) : string_eqb a b = true <-> a = b.
Proof.
  revert b. induction a as [|x a IH]; intros [|y b]; simpl;
    try (split; [discriminate|congruence]); [split; reflexivity|].
  rewrite andb_true_iff, N.eqb_eq, IH. split.
  - intros [-> ->]. reflexivity.
  - intros H. inversion H. auto.
Qed.

Section SetupFacts.

Import KeySetup.

Context {P : Platform}.

Lemma exportPublicKey_user (pk : RsaPublic) :
  exportPublicKey (user_public_key pk) = Ok (Base64.encode (spki_export pk)).
Proof. unfold exportPublicKey. simpl. apply arrayBufferToBase64_encode. Qed.

(** What [handleSetupKeys] does once the form is accepted. *)
Lemma handleSetupKeys_accepted (Hlen : pbkdf2_length P) (w : World)
    (user_id : JSString) (e : Entropy) :
  user w = Some user_id ->
  passphrase w = confirmPassphrase w ->
  (12 <= length (passphrase w))%nat ->
  handleSetupKeys w (e, [])
  = let (pair, e1) := rsa_generate 4096 [x01; x00; x01] e in
    let (saltBuffer, e2) := getRandomValues 16 e1 in
    let (ivBuffer, e3) := getRandomValues 12 e2 in
    let row :=
      {| KeySetup.user_id := user_id;
         public_key := Base64.encode (spki_export (fst pair));
         encrypted_private_key :=
           JSON_stringify
             {| encryptedKey :=
                  Base64.encode
                    (aes_gcm_encrypt
                       (derived_raw_key (passphrase w) saltBuffer) ivBuffer
                       (pkcs8_export (snd pair)));
                salt := Base64.encode saltBuffer;
                iv := Base64.encode ivBuffer |};
         key_algorithm := lit "RSA-OAEP" |} in
    (Ok tt,
     (e3,
      match insert_error w row with
      | None =>
          [setLoading true; insert row;
           toast "Encryption keys created"
             "Your account is now ready for secure file sharing!";
           onComplete; setLoading false]
      | Some error =>
          [setLoading true; insert row; console_error (ClientError error);
           toast "Key setup failed" error; setLoading false]
      end)).
Proof.
  intros Hu Heq H12. unfold handleSetupKeys. rewrite Hu.
  rewrite (proj2 (string_eqb_eq _ _) Heq). cbn [negb].
  destruct (Nat.ltb_spec (length (passphrase w)) 12) as [Hlt|_]; [lia|].
  unfold st_bind, st_try_finally, st_try_catch, emit, st_modify, await,
    st_lift, st_ret, st_throw. cbn [fst snd app].
  rewrite generateUserKeypair_spec.
  destruct (rsa_generate 4096 [x01; x00; x01] e) as [pair e1].
  cbn [publicKey privateKey fst snd].
  change (exportPublicKey _) with (exportPublicKey (user_public_key (fst pair))).
  rewrite exportPublicKey_user.
  rewrite (encryptPrivateKey_spec Hlen).
  destruct (getRandomValues 16 e1) as [saltBuffer e2].
  destruct (getRandomValues 12 e2) as [ivBuffer e3].
  cbn [encryptedKey salt iv fst snd app].
  destruct (insert_error w _) as [error|]; reflexivity.
Qed.

End SetupFacts.

(** X12. [handleSetupKeys] inserts a row only for a signed-in user whose
    passphrase equals its confirmation and has at least twelve
    characters; the row is that user's. *)
Theorem keys_are_stored_only_for_an_accepted_form {P : Platform}
    (w : KeySetup.World) (e : Entropy) (row : KeySetup.UserKeysRow) :
  In (KeySetup.insert row) (snd (snd (KeySetup.handleSetupKeys w (e, [])))) ->
  KeySetup.user w = Some (KeySetup.user_id row)
  /\ KeySetup.passphrase w = KeySetup.confirmPassphrase w
  /\ (12 <= length (KeySetup.passphrase w))%nat.
Proof.
  unfold KeySetup.handleSetupKeys.
  destruct (KeySetup.user w) as [user_id|]; [|intros []].
  destruct (string_eqb _ _) eqn:Heq; cbn [negb].
  2: { simpl. intros [H|[]]. discriminate. }
  apply string_eqb_eq in Heq.
  destruct (Nat.ltb_spec (length (KeySetup.passphrase w)) 12) as [Hlt|Hge].
  { simpl. intros [H|[]]. discriminate. }
  intros Hin. repeat split; auto. f_equal.
  revert Hin.
  unfold st_bind, st_try_finally, st_try_catch, KeySetup.emit, st_modify,
    KeySetup.await, st_lift, st_ret, st_throw. cbn [fst snd app].
  destruct (generateUserKeypair e) as [[keyPair|x] e1]; cbn [fst snd app].
  2: { simpl. intuition discriminate. }
  destruct (exportPublicKey (publicKey keyPair)) as [text|x]; cbn [fst snd app].
  2: { simpl. intuition discriminate. }
  destruct (encryptPrivateKey (privateKey keyPair) (KeySetup.passphrase w) e1)
    as [[sealed|x] e2]; cbn [fst snd app].
  2: { simpl. intuition discriminate. }
  destruct (KeySetup.insert_error w _) as [error|]; simpl;
    intros [H|[H|H]]; try discriminate; try (inversion H; reflexivity);
    intuition discriminate.
Qed.

(** X13. Once the form is accepted and the insert goes through,
    [handleSetupKeys] has stored a row that works: its public key is read
    back by [importPublicKey], its sealed key is read back by [JSON.parse]
    and unsealed by [decryptPrivateKey] under the passphrase of the form,
    and the two keys are the halves of one generated pair. It reports
    success, calls [onComplete] and clears [loading]. *)
Theorem setup_stores_working_keys {P : Platform} (Haead : aead_correct P)
    (Hlen : pbkdf2_length P) (Hpkcs8 : pkcs8_roundtrip P)
    (Hspki : spki_roundtrip P) (Hjson : json_roundtrip P)
    (w : KeySetup.World) (user_id : JSString) (e : Entropy) :
  KeySetup.user w = Some user_id ->
  KeySetup.passphrase w = KeySetup.confirmPassphrase w ->
  (12 <= length (KeySetup.passphrase w))%nat ->
  (forall row, KeySetup.insert_error w row = None) ->
  exists row e' pk sk sealed,
    KeySetup.handleSetupKeys w (e, [])
    = (Ok tt,
       (e',
        [KeySetup.setLoading true; KeySetup.insert row;
         KeySetup.toast "Encryption keys created"
           "Your account is now ready for secure file sharing!";
         KeySetup.onComplete; KeySetup.setLoading false]))
    /\ KeySetup.user_id row = user_id
    /\ generated_pair P pk sk
    /\ importPublicKey (KeySetup.public_key row) = Ok (user_public_key pk)
    /\ JSON_parse (KeySetup.encrypted_private_key row) = Ok sealed
    /\ decryptPrivateKey (encryptedKey sealed) (salt sealed) (iv sealed)
         (KeySetup.passphrase w)
       = Ok (user_private_key sk).
Proof.
  intros Hu Heq H12 Hins.
  rewrite (handleSetupKeys_accepted Hlen _ _ _ Hu Heq H12).
  destruct (rsa_generate 4096 [x01; x00; x01] e) as [[pk sk] e1] eqn:Hgen.
  destruct (getRandomValues 16 e1) as [saltBuffer e2].
  destruct (getRandomValues 12 e2) as [ivBuffer e3].
  cbv zeta. rewrite Hins.
  eexists _, e3, pk, sk, _. split; [reflexivity|]. cbn [fst snd].
  split; [reflexivity|]. split; [exists e, e1; exact Hgen|].
  split; [apply (export_import_public Hspki)|].
  split; [apply Hjson|].
  cbn [encryptedKey salt iv].
  rewrite (decryptPrivateKey_spec Hlen), Haead.
  unfold subtle.importKey_pkcs8_RSA_OAEP. simpl. rewrite Hpkcs8. reflexivity.
Qed.

(** X14. When the database refuses the insert, [handleSetupKeys] does not
    throw: it logs the error, shows "Key setup failed" with the message of
    the database, does not call [onComplete], and clears [loading]. *)
Theorem setup_reports_a_refused_insert {P : Platform} (Hlen : pbkdf2_length P)
    (w : KeySetup.World) (user_id : JSString) (e : Entropy) (error : string) :
  KeySetup.user w = Some user_id ->
  KeySetup.passphrase w = KeySetup.confirmPassphrase w ->
  (12 <= length (KeySetup.passphrase w))%nat ->
  (forall row, KeySetup.insert_error w row = Some error) ->
  exists row e',
    KeySetup.handleSetupKeys w (e, [])
    = (Ok tt,
       (e',
        [KeySetup.setLoading true; KeySetup.insert row;
         KeySetup.console_error (ClientError error);
         KeySetup.toast "Key setup failed" error;
         KeySetup.setLoading false])).
Proof.
  intros Hu Heq H12 Hins.
  rewrite (handleSetupKeys_accepted Hlen _ _ _ Hu Heq H12).
  destruct (rsa_generate 4096 [x01; x00; x01] e) as [pair e1].
  destruct (getRandomValues 16 e1) as [saltBuffer e2].
  destruct (getRandomValues 12 e2) as [ivBuffer e3].
  cbv zeta. rewrite Hins. eexists _, _. reflexivity.
Qed.

(** ** Uploading a file *)

Section UploadFacts.

Import FileUpload UploadState.

Context {P : Platform}.

Lemma bytes_of_base64_encode (b : Bytes) :
  bytes_of_base64 (Base64.encode b) = Ok b.
Proof.
  unfold bytes_of_base64, atob. rewrite decode_encode. simpl.
  rewrite map_u8_fromCharCode. reflexivity.
Qed.

(** Two changes of the entries of one file are one change. *)
Lemma for_file_twice (f : File) (c1 c2 : UploadProgress -> UploadProgress)
    (l : list UploadProgress) :
  (forall u, file (c1 u) = file u) ->
  for_file f c2 (for_file f c1 l) = for_file f (fun u => c2 (c1 u)) l.
Proof.
  intros Hfile. unfold for_file. rewrite map_map. apply map_ext.
  intros u. destruct (ref (file u) =? ref f) eqn:E.
  - rewrite Hfile, E. reflexivity.
  - rewrite E. reflexivity.
Qed.

(** What [processFile] does once the file key is wrapped. *)
Lemma processFile_wrapped (Hspki : spki_roundtrip P) (w : World) (f : File)
    (user_id : JSString) (pk : RsaPublic) (prev : list UploadProgress)
    (e e1 e2 e3 : Entropy) (raw_key ivBuffer wrapped : Bytes) :
  user w = Some user_id ->
  public_key w user_id = Some (Base64.encode (spki_export pk)) ->
  aes_generate 256 e = (raw_key, e1) ->
  getRandomValues 12 e1 = (ivBuffer, e2) ->
  rsa_oaep_encrypt pk raw_key e2 = (Some wrapped, e3) ->
  processFile w f (e, (prev, []))
  = let blob := aes_gcm_encrypt raw_key ivBuffer (content f) in
    let path := user_id ++ lit "/" ++ name f ++ decimal (now w) in
    let row :=
      {| FileUpload.user_id := user_id;
         filename := name f;
         encrypted_filename := name f ++ decimal (now w);
         file_size := size f;
         mime_type := type f;
         encrypted_symmetric_key := Base64.encode wrapped;
         iv := Base64.encode ivBuffer;
         storage_path := path;
         checksum := Base64.encode (sha256 (content f)) |} in
    (Ok tt,
     (e3,
      match upload_error w path blob with
      | Some x =>
          (finished f 50 failed (Some x) prev,
           [select_public_key user_id; upload path blob;
            console_error (ClientError x); toast "Upload failed" (lit x)])
      | None =>
          match insert_error w row with
          | Some x =>
              (finished f 80 failed (Some x) prev,
               [select_public_key user_id; upload path blob; insert row;
                console_error (ClientError x); toast "Upload failed" (lit x)])
          | None =>
              (finished f 100 complete None prev,
               [select_public_key user_id; upload path blob; insert row;
                toast "File encrypted and uploaded"
                  (name f ++ lit " is now securely stored.");
                onUploadComplete])
          end
      end)).
Proof.
  intros Hu Hkey Hgen Hiv Hwrap. unfold processFile. rewrite Hu.
  unfold st_bind, st_try_catch, emit, setUploads, st_modify, await,
    st_lift, st_ret, st_throw. cbn [fst snd app]. rewrite Hkey.
  cbn [fst snd app].
  rewrite generateFileEncryptionKey_spec, Hgen. cbn [fst snd app].
  rewrite (encryptFile_spec (content f) (file_key raw_key) raw_key)
    by reflexivity.
  rewrite Hiv. cbn [fst snd app].
  unfold calculateFileChecksum, subtle.digest_SHA_256.
  rewrite arrayBufferToBase64_encode, bytes_of_base64_encode.
  unfold subtle.importKey_spki_RSA_OAEP. cbn [usages_within forallb usage_in
    existsb usage_eqb orb andb negb]. rewrite Hspki.
  unfold wrapSymmetricKey, subtle.wrapKey_raw_RSA_OAEP, bind, draw, lift, ret.
  cbn -[Base64.encode decimal lit for_file]. rewrite Hwrap.
  rewrite arrayBufferToBase64_encode. cbn [fst snd app].
  destruct (upload_error w _ _) as [x|]; cbn [fst snd app message].
  - unfold finished. rewrite !for_file_twice by reflexivity. reflexivity.
  - destruct (insert_error w _) as [x|]; cbn [fst snd app message];
      unfold finished; rewrite !for_file_twice by reflexivity; reflexivity.
Qed.

End UploadFacts.

Section DownloadFacts.

Context {P : Platform}.

Lemma unwrapSymmetricKey_wrapped (privateKey : CryptoKey) (sk : RsaPrivate)
    (wrapped raw_key : Bytes) :
  unwrapping_key privateKey sk ->
  rsa_oaep_decrypt sk wrapped = Some raw_key ->
  length raw_key = 32%nat ->
  unwrapSymmetricKey (Base64.encode wrapped) privateKey
  = Ok (file_key raw_key).
Proof.
  intros (Ut & Un & Uu & Ud) Hdec Hlen.
  unfold unwrapSymmetricKey. rewrite base64ToArrayBuffer_encode. simpl.
  unfold subtle.unwrapKey_raw_RSA_OAEP_AES_GCM.
  rewrite Un, Uu, Ut, Ud, Hdec. simpl.
  apply importKey_raw_AES_GCM_256, Hlen.
Qed.

End DownloadFacts.

(** X15. Upload, then download: when the stored public key is the export
    of one half of a generated pair and the collaborators accept the blob
    and the row, [processFile] uploads one blob and inserts one row; and
    any later [handleDecrypt] that is given this row, this blob and the
    private half of the pair saves a file with the name and exactly the
    bytes of the file that was uploaded. *)
Theorem upload_download_roundtrip {P : Platform} (Haead : aead_correct P)
    (Hrsa : rsa_oaep_correct P) (Hspki : spki_roundtrip P)
    (Haes : aes_generate_length P)
    (w : FileUpload.World) (f : FileUpload.File) (user_id : JSString)
    (pk : RsaPublic) (sk : RsaPrivate) (prev : list FileUpload.UploadProgress)
    (e : Entropy) :
  FileUpload.user w = Some user_id ->
  FileUpload.public_key w user_id = Some (Base64.encode (spki_export pk)) ->
  generated_pair P pk sk ->
  (forall path blob, FileUpload.upload_error w path blob = None) ->
  (forall row, FileUpload.insert_error w row = None) ->
  exists row blob e',
    FileUpload.processFile w f (e, (prev, []))
    = (Ok tt,
       (e',
        (UploadState.finished f 100 FileUpload.complete None prev,
         [FileUpload.select_public_key user_id;
          FileUpload.upload (FileUpload.storage_path row) blob;
          FileUpload.insert row;
          FileUpload.toast "File encrypted and uploaded"
            (FileUpload.name f ++ lit " is now securely stored.");
          FileUpload.onUploadComplete])))
    /\ FileUpload.filename row = FileUpload.name f
    /\ FileUpload.file_size row = FileUpload.size f
    /\ FileUpload.storage_path row
       = user_id ++ lit "/" ++ FileUpload.name f
         ++ decimal (FileUpload.now w)
    /\ forall (fw : FileList.World) (passphrase : JSString)
         (record : FileList.EncryptedFile.t) (sealed : SealedPrivateKey)
         (privateKey : CryptoKey),
         Flow.stored_key fw record sealed ->
         decryptPrivateKey (encryptedKey sealed) (salt sealed) (iv sealed)
           passphrase = Ok privateKey ->
         unwrapping_key privateKey sk ->
         MoreFlow.stored_file fw record row blob ->
         snd (FileList.handleDecrypt fw passphrase) = Ok tt
         /\ In (FileList.save_file (FileUpload.name f) (FileUpload.content f))
              (fst (FileList.handleDecrypt fw passphrase)).
Proof.
  intros Hu Hkey Hpair Hup Hins.
  destruct (aes_generate 256 e) as [raw_key e1] eqn:Hgen.
  destruct (getRandomValues 12 e1) as [ivBuffer e2] eqn:Hiv.
  assert (Hlen : length raw_key = 32%nat).
  { pose proof (Haes e) as H. rewrite Hgen in H. exact H. }
  destruct (Hrsa _ _ Hpair raw_key e2) as (wrapped & Hw & Hdec); [lia|].
  destruct (rsa_oaep_encrypt pk raw_key e2) as [oc e3] eqn:Hwrap.
  simpl in Hw. subst oc.
  rewrite (processFile_wrapped Hspki _ _ _ _ _ _ _ _ _ _ _ _
             Hu Hkey Hgen Hiv Hwrap).
  cbv zeta. rewrite Hup, Hins.
  match goal with |- context [FileUpload.insert ?r] => exists r end.
  eexists _, e3. split; [reflexivity|]. cbn.
  split; [reflexivity|]. split; [reflexivity|]. split; [reflexivity|].
  intros fw passphrase record sealed privateKey Hstored Hunseal Hpriv
    (Hname & Hk & Hi & Hpath & Hblob).
  cbn in Hname, Hk, Hi, Hpath, Hblob. rewrite <- Hname.
  assert (R : Flow.reaches_decryptFile fw passphrase record
                (aes_gcm_encrypt raw_key ivBuffer (FileUpload.content f))
                (file_key raw_key)).
  { exists sealed, privateKey. repeat split; auto.
    - rewrite Hpath. exact Hblob.
    - rewrite Hk. apply (unwrapSymmetricKey_wrapped _ sk); auto. }
  apply (handleDecrypt_succeeds _ _ _ _ _ (FileUpload.content f) R).
  rewrite Hi. rewrite (decryptFile_spec _ _ _ raw_key) by reflexivity.
  rewrite Haead. reflexivity.
Qed.


(** X16. When the storage refuses the blob, [processFile] does not throw
    and inserts no row: it logs the error, marks the upload as failed at
    50 with the message of the storage, and shows "Upload failed". *)
Theorem refused_upload_inserts_nothing {P : Platform}
    (Hrsa : rsa_oaep_correct P) (Hspki : spki_roundtrip P)
    (Haes : aes_generate_length P)
    (w : FileUpload.World) (f : FileUpload.File) (user_id : JSString)
    (pk : RsaPublic) (sk : RsaPrivate) (prev : list FileUpload.UploadProgress)
    (e : Entropy) (x : string) :
  FileUpload.user w = Some user_id ->
  FileUpload.public_key w user_id = Some (Base64.encode (spki_export pk)) ->
  generated_pair P pk sk ->
  (forall path blob, FileUpload.upload_error w path blob = Some x) ->
  exists path blob e',
    FileUpload.processFile w f (e, (prev, []))
    = (Ok tt,
       (e',
        (UploadState.finished f 50 FileUpload.failed (Some x) prev,
         [FileUpload.select_public_key user_id;
          FileUpload.upload path blob;
          FileUpload.console_error (ClientError x);
          FileUpload.toast "Upload failed" (lit x)]))).
Proof.
  intros Hu Hkey Hpair Hup.
  destruct (aes_generate 256 e) as [raw_key e1] eqn:Hgen.
  destruct (getRandomValues 12 e1) as [ivBuffer e2] eqn:Hiv.
  assert (Hlen : length raw_key = 32%nat).
  { pose proof (Haes e) as H. rewrite Hgen in H. exact H. }
  destruct (Hrsa _ _ Hpair raw_key e2) as (wrapped & Hw & Hdec); [lia|].
  destruct (rsa_oaep_encrypt pk raw_key e2) as [oc e3] eqn:Hwrap.
  simpl in Hw. subst oc.
  rewrite (processFile_wrapped Hspki _ _ _ _ _ _ _ _ _ _ _ _
             Hu Hkey Hgen Hiv Hwrap).
  cbv zeta. rewrite Hup. eexists _, _, _. reflexivity.
Qed.

(** X17. When the database refuses the row after the storage has taken
    the blob, [processFile] does not throw and does not remove the blob:
    the upload has happened, the upload is marked as failed at 80 with the
    message of the database, and [onUploadComplete] is not called. *)
Theorem refused_row_leaves_the_blob {P : Platform}
    (Hrsa : rsa_oaep_correct P) (Hspki : spki_roundtrip P)
    (Haes : aes_generate_length P)
    (w : FileUpload.World) (f : FileUpload.File) (user_id : JSString)
    (pk : RsaPublic) (sk : RsaPrivate) (prev : list FileUpload.UploadProgress)
    (e : Entropy) (x : string) :
  FileUpload.user w = Some user_id ->
  FileUpload.public_key w user_id = Some (Base64.encode (spki_export pk)) ->
  generated_pair P pk sk ->
  (forall path blob, FileUpload.upload_error w path blob = None) ->
  (forall row, FileUpload.insert_error w row = Some x) ->
  exists row blob e',
    FileUpload.processFile w f (e, (prev, []))
    = (Ok tt,
       (e',
        (UploadState.finished f 80 FileUpload.failed (Some x) prev,
         [FileUpload.select_public_key user_id;
          FileUpload.upload (FileUpload.storage_path row) blob;
          FileUpload.insert row;
          FileUpload.console_error (ClientError x);
          FileUpload.toast "Upload failed" (lit x)]))).
Proof.
  intros Hu Hkey Hpair Hup Hins.
  destruct (aes_generate 256 e) as [raw_key e1] eqn:Hgen.
  destruct (getRandomValues 12 e1) as [ivBuffer e2] eqn:Hiv.
  assert (Hlen : length raw_key = 32%nat).
  { pose proof (Haes e) as H. rewrite Hgen in H. exact H. }
  destruct (Hrsa _ _ Hpair raw_key e2) as (wrapped & Hw & Hdec); [lia|].
  destruct (rsa_oaep_encrypt pk raw_key e2) as [oc e3] eqn:Hwrap.
  simpl in Hw. subst oc.
  rewrite (processFile_wrapped Hspki _ _ _ _ _ _ _ _ _ _ _ _
             Hu Hkey Hgen Hiv Hwrap).
  cbv zeta. rewrite Hup, Hins.
  match goal with |- context [FileUpload.insert ?r] => exists r end.
  eexists _, _. reflexivity.
Qed.

(** X18. When the user has no public key stored, [processFile] generates
    no key and draws no randomness, uploads nothing and inserts nothing:
    it marks the upload as failed with "User keys not found. Please set up
    encryption keys first." and shows "Upload failed". *)
Theorem upload_without_keys {P : Platform}
    (w : FileUpload.World) (f : FileUpload.File) (user_id : JSString)
    (prev : list FileUpload.UploadProgress) (e : Entropy) :
  FileUpload.user w = Some user_id ->
  FileUpload.public_key w user_id = None ->
  FileUpload.processFile w f (e, (prev, []))
  = (Ok tt,
     (e,
      (UploadState.failed_at_once f
         "User keys not found. Please set up encryption keys first." prev,
       [FileUpload.select_public_key user_id;
        FileUpload.console_error
          (Error "User keys not found. Please set up encryption keys first.");
        FileUpload.toast "Upload failed"
          (lit "User keys not found. Please set up encryption keys first.")]))).
Proof.
  intros Hu Hkey. unfold FileUpload.processFile. rewrite Hu.
  unfold st_bind, st_try_catch, FileUpload.emit, FileUpload.setUploads,
    st_modify, FileUpload.await, st_lift, st_ret, st_throw.
  cbn [fst snd app]. rewrite Hkey. reflexivity.
Qed.

Section UploadOrder.

Import FileUpload.

Context {P : Platform}.

(** The traces that [processFile] can leave. *)
Lemma processFile_trace (w : World) (f : File)
    (prev : list UploadProgress) (e : Entropy) :
  fst (processFile w f (e, (prev, []))) = Ok tt
  /\ let t := snd (snd (snd (processFile w f (e, (prev, []))))) in
     t = []
     \/ (exists user_id x d, t = [select_public_key user_id; console_error x;
                                   toast "Upload failed" d])
     \/ (exists user_id path blob x d,
           t = [select_public_key user_id; upload path blob; console_error x;
                toast "Upload failed" d])
     \/ (exists user_id row blob x d,
           t = [select_public_key user_id; upload (storage_path row) blob;
                insert row; console_error x; toast "Upload failed" d])
     \/ (exists user_id row blob d,
           t = [select_public_key user_id; upload (storage_path row) blob;
                insert row; toast "File encrypted and uploaded" d;
                onUploadComplete]).
Proof.
  unfold processFile.
  destruct (user w) as [user_id|]; [|split; [reflexivity|left; reflexivity]].
  unfold st_bind, st_try_catch, emit, setUploads, st_modify, await,
    st_lift, st_ret, st_throw. cbn [fst snd app].
  destruct (public_key w user_id) as [keyData|]; cbn [fst snd app].
  2: { split; [reflexivity|]. right. left. eexists _, _, _. reflexivity. }
  rewrite generateFileEncryptionKey_spec.
  destruct (aes_generate 256 e) as [raw_key e1]. cbn [fst snd app].
  rewrite (encryptFile_spec (content f) (file_key raw_key) raw_key)
    by reflexivity.
  destruct (getRandomValues 12 e1) as [ivBuffer e2]. cbn [fst snd app].
  unfold calculateFileChecksum, subtle.digest_SHA_256.
  rewrite arrayBufferToBase64_encode.
  destruct (bytes_of_base64 keyData) as [publicKeyData|x]; cbn [fst snd app].
  2: { split; [reflexivity|]. right. left. eexists _, _, _. reflexivity. }
  destruct (subtle.importKey_spki_RSA_OAEP _ _ _ _) as [publicKeyObj|x];
    cbn [fst snd app].
  2: { split; [reflexivity|]. right. left. eexists _, _, _. reflexivity. }
  destruct (wrapSymmetricKey (file_key raw_key) publicKeyObj e2)
    as [[wrappedKey|x] e3]; cbn [fst snd app].
  2: { split; [reflexivity|]. right. left. eexists _, _, _. reflexivity. }
  destruct (upload_error w _ _) as [x|]; cbn [fst snd app].
  { split; [reflexivity|]. right. right. left. eexists _, _, _, _, _.
    reflexivity. }
  destruct (insert_error w _) as [x|]; cbn [fst snd app].
  - split; [reflexivity|]. do 3 right. left.
    match goal with |- context [insert ?r] => exists user_id, r end.
    eexists _, _, _. reflexivity.
  - split; [reflexivity|]. do 4 right.
    match goal with |- context [insert ?r] => exists user_id, r end.
    eexists _, _. reflexivity.
Qed.

End UploadOrder.

(** X19. In every execution [processFile] catches its errors, and it
    writes a row only after it has uploaded a blob at the storage path
    that the row names, and calls [onUploadComplete] only after it has
    written the row. *)
Theorem row_follows_blob {P : Platform} (w : FileUpload.World)
    (f : FileUpload.File) (prev : list FileUpload.UploadProgress)
    (e : Entropy) :
  let t := snd (snd (snd (FileUpload.processFile w f (e, (prev, []))))) in
  fst (FileUpload.processFile w f (e, (prev, []))) = Ok tt
  /\ (forall pre row post,
        t = pre ++ FileUpload.insert row :: post ->
        exists blob,
          In (FileUpload.upload (FileUpload.storage_path row) blob) pre)
  /\ (forall pre post,
        t = pre ++ FileUpload.onUploadComplete :: post ->
        exists row, In (FileUpload.insert row) pre).
Proof.
  destruct (processFile_trace w f prev e) as [Hok Ht]. cbv zeta in *.
  split; [exact Hok|].
  destruct Ht as [Ht|[(u & x & d & Ht)|[(u & path & blob & x & d & Ht)
                 |[(u & row & blob & x & d & Ht)|(u & row & blob & d & Ht)]]]];
    rewrite Ht; split; intros pre; intros;
    repeat (destruct pre as [|? pre]; simpl in *;
            try match goal with
                | H : _ :: _ = _ :: _ |- _ => inversion H; clear H; subst
                | H : [] = _ :: _ |- _ => discriminate H
                | H : [] = _ ++ _ :: _ |- _ =>
                    destruct pre; discriminate H
                end);
    try discriminate; eauto 8.
Qed.

(** X20. A passphrase from [handleGeneratePassphrase] has to be typed
    again: the confirmation is cleared, so that [handleSetupKeys] right
    after it shows "Passphrases don't match", generates no key and inserts
    nothing; once the confirmation holds the same passphrase, the form is
    past both checks and the setup starts. *)
Theorem generated_passphrase_is_confirmed_by_hand {P : Platform}
    (w : KeySetup.World) (user_id : JSString) (e : Entropy) :
  KeySetup.user w = Some user_id ->
  let w' := fst (fst (KeySetup.handleGeneratePassphrase w e)) in
  let e' := snd (KeySetup.handleGeneratePassphrase w e) in
  KeySetup.handleSetupKeys w' (e', [])
  = (Ok tt,
     (e', [KeySetup.toast "Passphrases don't match"
             "Please make sure both passphrases are identical."]))
  /\ forall insert_error,
       exists rest,
         snd (snd (KeySetup.handleSetupKeys
                     {| KeySetup.user := KeySetup.user w';
                        KeySetup.passphrase := KeySetup.passphrase w';
                        KeySetup.confirmPassphrase := KeySetup.passphrase w';
                        KeySetup.insert_error := insert_error |} (e', [])))
         = KeySetup.setLoading true :: rest.
Proof.
  intros Hu. unfold KeySetup.handleGeneratePassphrase.
  pose proof (passphrase_loop_words 6 [] e) as (words & E & Hn & Hall).
  unfold generateSecurePassphrase.
  destruct (passphrase_loop 6 [] e) as [ws e1]. simpl in E. subst ws.
  cbn [fst snd].
  assert (Hw : Forall (fun w => (5 <= length w <= 8)%nat
                                /\ forallb passphrase_char w = true) words).
  { rewrite List.Forall_forall in *. intros x Hin.
    pose proof wordList_words as HL. rewrite List.Forall_forall in HL.
    apply HL, Hall, Hin. }
  destruct (join_words words Hw) as (_ & Hlo & _ & _). rewrite Hn in Hlo.
  set (p := join (lit "-") words) in *.
  assert (H12 : (12 <= length p)%nat) by lia.
  split.
  - unfold KeySetup.handleSetupKeys. cbn [KeySetup.user KeySetup.passphrase
      KeySetup.confirmPassphrase]. rewrite Hu.
    destruct p as [|c p']; [simpl in H12; lia|]. reflexivity.
  - intros insert_error. unfold KeySetup.handleSetupKeys.
    cbn [KeySetup.user KeySetup.passphrase KeySetup.confirmPassphrase].
    rewrite Hu, (proj2 (string_eqb_eq p p) eq_refl). cbn [negb].
    destruct (Nat.ltb_spec (length p) 12) as [Hlt|_]; [lia|].
    unfold st_bind, st_try_finally, KeySetup.emit, st_modify.
    cbn [fst snd app].
    destruct (st_try_catch _ _ _) as [r [e2 t]] eqn:Hrun.
    revert Hrun. unfold st_try_catch, st_bind, KeySetup.emit, st_modify,
      KeySetup.await, st_lift, st_ret, st_throw. cbn [fst snd app].
    rewrite generateUserKeypair_spec.
    destruct (rsa_generate 4096 [x01; x00; x01] e1) as [[pk sk] e3].
    cbn [fst snd app publicKey privateKey].
    destruct (exportPublicKey _) as [pkb|x]; cbn [fst snd app].
    2: { intros H. inversion H. eexists. reflexivity. }
    destruct (encryptPrivateKey _ _ e3) as [[sealed|x] e4]; cbn [fst snd app].
    2: { intros H. inversion H. eexists. reflexivity. }
    cbn [KeySetup.insert_error].
    match goal with
    | |- context [insert_error ?row] => destruct (insert_error row) as [x|]
    end; cbn [fst snd app]; intros H; inversion H; eexists; reflexivity.
Qed.

(** ** Deleting a file *)

(** X21. [handleDelete] never throws. A declined prompt leaves the list
    and the stores alone. After a confirmed prompt the blob's removal is
    requested first and the row's deletion second, whatever the storage
    answers; when the database refuses, the list is unchanged although the
    removal of the blob was already requested; when it accepts, the list
    keeps exactly the files with another id. *)
Theorem delete_outcome {P : Platform} (w : FileListDelete.World)
    (file : FileList.EncryptedFile.t) (files : list FileList.EncryptedFile.t) :
  let r := FileListDelete.handleDelete w file (files, []) in
  let prompt :=
    FileListDelete.confirm_prompt
      (lit "Delete " ++ FileList.EncryptedFile.filename file
       ++ lit "? This cannot be undone.") in
  let requests :=
    [FileListDelete.remove_blob (FileList.EncryptedFile.storage_path file);
     FileListDelete.delete_row (FileList.EncryptedFile.id file)] in
  fst r = Ok tt
  /\ match FileListDelete.confirm w file,
           FileListDelete.delete_error w (FileList.EncryptedFile.id file) with
     | false, _ => snd r = (files, [prompt])
     | true, Some x =>
         snd r = (files,
                  prompt :: requests
                  ++ [FileListDelete.toast "Delete failed" (lit x)])
     | true, None =>
         snd (snd r)
         = prompt :: requests
           ++ [FileListDelete.toast "File deleted"
                 (FileList.EncryptedFile.filename file
                  ++ lit " has been permanently deleted.")]
         /\ forall f,
              In f (fst (snd r))
              <-> In f files
                  /\ FileList.EncryptedFile.id f
                     <> FileList.EncryptedFile.id file
     end.
Proof.
  unfold FileListDelete.handleDelete.
  unfold st_bind, st_try_catch, FileListDelete.emit, FileListDelete.setFiles,
    st_modify, st_ret, st_throw. cbn [fst snd app].
  destruct (FileListDelete.confirm w file); cbn [negb fst snd app].
  2: { split; reflexivity. }
  destruct (FileListDelete.delete_error w _) as [x|]; cbn [fst snd app].
  { split; reflexivity. }
  split; [reflexivity|]. split; [reflexivity|].
  intros f. rewrite filter_In, negb_true_iff.
  split; intros [Hin Hid]; (split; [exact Hin|]).
  - intros E. apply (proj2 (string_eqb_eq _ _)) in E. congruence.
  - destruct (string_eqb _ _) eqn:E; [|reflexivity].
    apply string_eqb_eq in E. contradiction.
Qed.

(** ** From the key setup to the download *)

(** X22. Setup, upload, download: after [handleSetupKeys] has stored a
    row of keys under a passphrase and [processFile] has stored a blob and
    a row for a file under the public key of that row, a [handleDecrypt]
    that is served the sealed key, the row and the blob, and is given the
    same passphrase, saves a file with the name and exactly the bytes of
    the file that was uploaded. *)
Theorem setup_upload_download {P : Platform} (Haead : aead_correct P)
    (Hlen : pbkdf2_length P) (Hpkcs8 : pkcs8_roundtrip P)
    (Hrsa : rsa_oaep_correct P) (Hspki : spki_roundtrip P)
    (Hjson : json_roundtrip P) (Haes : aes_generate_length P)
    (ws : KeySetup.World) (wu : FileUpload.World) (wd : FileList.World)
    (user_id : JSString) (f : FileUpload.File)
    (record : FileList.EncryptedFile.t)
    (prev : list FileUpload.UploadProgress) (e0 e1 : Entropy)
    (keys : KeySetup.UserKeysRow) (row : FileUpload.FileRow) (blob : Bytes) :
  KeySetup.user ws = Some user_id ->
  KeySetup.passphrase ws = KeySetup.confirmPassphrase ws ->
  (12 <= length (KeySetup.passphrase ws))%nat ->
  In (KeySetup.insert keys) (snd (snd (KeySetup.handleSetupKeys ws (e0, []))))
  ->
  FileUpload.user wu = Some user_id ->
  FileUpload.public_key wu user_id = Some (KeySetup.public_key keys) ->
  In (FileUpload.upload (FileUpload.storage_path row) blob)
     (snd (snd (snd (FileUpload.processFile wu f (e1, (prev, [])))))) ->
  In (FileUpload.insert row)
     (snd (snd (snd (FileUpload.processFile wu f (e1, (prev, [])))))) ->
  FileList.user wd = Some user_id ->
  FileList.selectedFile wd = Some record ->
  FileList.user_keys wd user_id
  = FileList.Row (KeySetup.encrypted_private_key keys) ->
  MoreFlow.stored_file wd record row blob ->
  snd (FileList.handleDecrypt wd (KeySetup.passphrase ws)) = Ok tt
  /\ In (FileList.save_file (FileUpload.name f) (FileUpload.content f))
       (fst (FileList.handleDecrypt wd (KeySetup.passphrase ws))).
Proof.
  intros Hu Heq H12 Hkeys Hu' Hpub Hblob Hrow Hd Hsel Hsealed
    (Hname & Hk & Hi & Hpath & Hstorage).
  (* the keys that were stored *)
  rewrite (handleSetupKeys_accepted Hlen _ _ _ Hu Heq H12) in Hkeys.
  destruct (rsa_generate 4096 [x01; x00; x01] e0) as [[pk sk] e01] eqn:Hgen.
  destruct (getRandomValues 16 e01) as [saltBuffer e02].
  destruct (getRandomValues 12 e02) as [ivBuffer0 e03].
  cbv zeta in Hkeys. cbn [fst snd] in Hkeys.
  assert (Ekeys :
            KeySetup.public_key keys = Base64.encode (spki_export pk)
            /\ KeySetup.encrypted_private_key keys
               = JSON_stringify
                   {| encryptedKey :=
                        Base64.encode
                          (aes_gcm_encrypt
                             (derived_raw_key (KeySetup.passphrase ws)
                                saltBuffer)
                             ivBuffer0 (pkcs8_export sk));
                      salt := Base64.encode saltBuffer;
                      iv := Base64.encode ivBuffer0 |}).
  { destruct (KeySetup.insert_error ws _); simpl in Hkeys;
      repeat (destruct Hkeys as [Hkeys|Hkeys]; try discriminate Hkeys;
              try (inversion Hkeys; split; reflexivity));
      contradiction. }
  destruct Ekeys as [Epub Esealed]. clear Hkeys.
  assert (Hpair : generated_pair P pk sk) by (exists e0, e01; exact Hgen).
  (* the file that was stored *)
  rewrite Epub in Hpub.
  destruct (aes_generate 256 e1) as [raw_key e11] eqn:Hgenk.
  destruct (getRandomValues 12 e11) as [ivBuffer e12] eqn:Hiv.
  assert (Hraw : length raw_key = 32%nat).
  { pose proof (Haes e1) as H. rewrite Hgenk in H. exact H. }
  destruct (Hrsa _ _ Hpair raw_key e12) as (wrapped & Hw & Hdec); [lia|].
  destruct (rsa_oaep_encrypt pk raw_key e12) as [oc e13] eqn:Hwrap.
  simpl in Hw. subst oc.
  rewrite (processFile_wrapped Hspki _ _ _ _ _ _ _ _ _ _ _ _
             Hu' Hpub Hgenk Hiv Hwrap) in Hblob, Hrow.
  cbv zeta in Hblob, Hrow. cbn [fst snd] in Hblob, Hrow.
  assert (Erow :
            FileUpload.filename row = FileUpload.name f
            /\ FileUpload.encrypted_symmetric_key row = Base64.encode wrapped
            /\ FileUpload.iv row = Base64.encode ivBuffer
            /\ blob = aes_gcm_encrypt raw_key ivBuffer (FileUpload.content f)).
  { destruct (FileUpload.upload_error wu _ _);
      [|destruct (FileUpload.insert_error wu _)];
      simpl in Hblob, Hrow;
      repeat (destruct Hrow as [Hrow|Hrow]; try discriminate Hrow);
      try contradiction;
      repeat (destruct Hblob as [Hblob|Hblob]; try discriminate Hblob);
      try contradiction;
      inversion Hrow; subst row; inversion Hblob; repeat split. }
  destruct Erow as (Ename & Ek & Ei & Eblob). subst blob.
  (* the download *)
  rewrite Ename in Hname. rewrite Ek in Hk. rewrite Ei in Hi.
  rewrite <- Hname.
  apply (handleDecrypt_succeeds _ _ record
           (aes_gcm_encrypt raw_key ivBuffer (FileUpload.content f))
           (file_key raw_key)).
  - eexists _, (user_private_key sk). split; [|split; [|split]].
    + exists user_id, (KeySetup.encrypted_private_key keys).
      repeat split; auto. rewrite Esealed. apply Hjson.
    + cbn [encryptedKey salt iv].
      rewrite (decryptPrivateKey_spec Hlen), Haead.
      unfold subtle.importKey_pkcs8_RSA_OAEP. simpl. rewrite Hpkcs8.
      reflexivity.
    + rewrite Hpath. exact Hstorage.
    + rewrite Hk. apply (unwrapSymmetricKey_wrapped _ sk); auto.
      repeat split; reflexivity.
  - rewrite Hi. rewrite (decryptFile_spec _ _ _ raw_key) by reflexivity.
    rewrite Haead. reflexivity.
Qed.

(** ** The deterministic platform keeps the laws *)

Lemma bytes_eqb_refl (a : Bytes) : Stub.bytes_eqb a a = true.
Proof.
  induction a as [|x a IH]; simpl; [reflexivity|].
  rewrite IH, andb_true_r. destruct x; reflexivity.
Qed.

Lemma stub_aead_correct : aead_correct Stub.platform.
Proof.
  intros k iv m. simpl. unfold Stub.aes_gcm_decrypt, Stub.aes_gcm_encrypt.
  replace (length (m ++ k ++ iv) - length (k ++ iv))%nat with (length m)
    by (rewrite !length_app; lia).
  rewrite drop_app_length, take_app_length, bytes_eqb_refl. reflexivity.
Qed.

Lemma bytes_eqb_eq (a b : Bytes) : Stub.bytes_eqb a b = true -> a = b.
Proof.
  revert b. induction a as [|x a IH]; intros [|y b]; simpl;
    try discriminate; [reflexivity|].
  intros H. apply andb_true_iff in H as [Hx Ha].
  apply Byte.byte_dec_bl in Hx. rewrite Hx, (IH b Ha). reflexivity.
Qed.

Lemma stub_aead_rejects_other_keys : aead_rejects_other_keys Stub.platform.
Proof.
  intros k k' iv m Hk Hk' Hne. simpl.
  unfold Stub.aes_gcm_decrypt, Stub.aes_gcm_encrypt.
  replace (length (m ++ k ++ iv) - length (k' ++ iv))%nat with (length m)
    by (rewrite !length_app; lia).
  rewrite drop_app_length.
  destruct (Stub.bytes_eqb (k ++ iv) (k' ++ iv)) eqn:E; [|reflexivity].
  apply bytes_eqb_eq, app_inv_tail in E. contradiction.
Qed.

Lemma stub_pbkdf2_length : pbkdf2_length Stub.platform.
Proof.
  intros password salt iterations.
  change (length (Stub.pbkdf2_sha256 password salt iterations 256) = 32%nat).
  unfold Stub.pbkdf2_sha256. rewrite length_map, length_seq. reflexivity.
Qed.

Lemma stub_pkcs8_roundtrip : pkcs8_roundtrip Stub.platform.
Proof. intros k. reflexivity. Qed.

Lemma stub_rsa_oaep_correct : rsa_oaep_correct Stub.platform.
Proof.
  intros pub priv (e & e' & Hgen) m r Hm. simpl in *.
  unfold Stub.rsa_generate in Hgen.
  destruct (Stub.getRandomValues 4 e) as [name e1]. inversion Hgen. subst.
  unfold Stub.rsa_oaep_encrypt, Stub.rsa_oaep_decrypt.
  destruct (Nat.leb_spec (length m) 446); [|lia].
  exists (priv ++ m). split; [reflexivity|].
  rewrite take_app_length, drop_app_length, bytes_eqb_refl. reflexivity.
Qed.

(** ** The scenario runs *)

Example demo_download :
  FileList.handleDecrypt (P := Stub.platform) Demo.world Demo.passphrase
  = ([FileList.setDecrypting (Some (lit "file-1"));
      FileList.select_encrypted_private_key (lit "user-1");
      FileList.call_decryptPrivateKey;
      FileList.download (lit "user-1/notes.txt1700000000000");
      FileList.call_unwrapSymmetricKey;
      FileList.call_decryptFile;
      FileList.save_file (lit "notes.txt") Demo.message;
      FileList.toast "File decrypted and downloaded";
      FileList.setDecrypting None],
     Ok tt).
Proof. vm_compute. reflexivity. Qed.

Example demo_wrong_passphrase :
  FileList.handleDecrypt (P := Stub.platform) Demo.world Demo.wrong_passphrase
  = ([FileList.setDecrypting (Some (lit "file-1"));
      FileList.select_encrypted_private_key (lit "user-1");
      FileList.call_decryptPrivateKey;
      FileList.console_error (DOMException (OperationError ""));
      FileList.setDecrypting None],
     Throw (DOMException (OperationError ""))).
Proof. vm_compute. reflexivity. Qed.

(** A wrapped key of 192 bits is refused at the unwrap, as in Chromium. *)
Example demo_unwrap_192_bits :
  unwrapSymmetricKey (P := Stub.platform)
    (Base64.encode (Demo.pair_name ++ replicate 24 x2a)) Demo.privateKey
  = Throw (DOMException
             (OperationError "192-bit AES keys are not supported")).
Proof. vm_compute. reflexivity. Qed.

(** ** The theorems at the scenario *)

#[local] Existing Instance Stub.platform.

(** C1 at the empty message. *)
Lemma file_cipher_roundtrip_witness :
  aes_gcm_key (P := Stub.platform) (file_key Demo.raw_key)
  /\ exists ciphertext iv e',
       encryptFile (P := Stub.platform) [] (file_key Demo.raw_key) 100
       = (Ok (ciphertext, iv), e')
       /\ decryptFile ciphertext (file_key Demo.raw_key) iv = Ok [].
Proof.
  assert (H : aes_gcm_key (P := Stub.platform) (file_key Demo.raw_key)).
  { repeat split. exists Demo.raw_key. reflexivity. }
  split; [exact H|].
  exact (file_cipher_roundtrip (P := Stub.platform) stub_aead_correct
           [] (file_key Demo.raw_key) 100 H).
Defined.

(** C2 at the scenario's private key and passphrase. *)
Lemma seal_unseal_roundtrip_witness :
  exists sealed e',
    encryptPrivateKey (P := Stub.platform) Demo.privateKey Demo.passphrase 4
    = (Ok sealed, e')
    /\ decryptPrivateKey (encryptedKey sealed) (salt sealed) (iv sealed)
         Demo.passphrase
       = Ok Demo.privateKey.
Proof.
  exact (seal_unseal_roundtrip (P := Stub.platform) stub_aead_correct
           stub_pbkdf2_length stub_pkcs8_roundtrip
           Demo.pair_name Demo.passphrase 4).
Defined.


(** C4 at the scenario's file key and key pair. *)
Lemma wrap_unwrap_roundtrip_witness :
  exists wrapped e',
    wrapSymmetricKey (P := Stub.platform) (file_key Demo.raw_key)
      Demo.publicKey 200
    = (Ok wrapped, e')
    /\ unwrapSymmetricKey wrapped Demo.privateKey = Ok (file_key Demo.raw_key).
Proof.
  apply (wrap_unwrap_roundtrip (P := Stub.platform) stub_rsa_oaep_correct
           Demo.raw_key Demo.publicKey Demo.privateKey
           Demo.pair_name Demo.pair_name 200).
  - reflexivity.
  - exists 0, 4. reflexivity.
  - repeat split.
  - repeat split.
Defined.

Lemma demo_reaches (f : FileList.EncryptedFile.t) (blob : Bytes)
    (raw_key : Bytes) :
  unwrapSymmetricKey (P := Stub.platform)
    (FileList.EncryptedFile.encrypted_symmetric_key f) Demo.privateKey
  = Ok (file_key raw_key) ->
  Flow.reaches_decryptFile (P := Stub.platform) (Demo.world_of f blob)
    Demo.passphrase f blob (file_key raw_key).
Proof.
  intros Hunwrap. exists Demo.sealed, Demo.privateKey. repeat split.
  - exists (lit "user-1"), (Stub.JSON_stringify Demo.sealed).
    repeat split.
  - exact Hunwrap.
Defined.





(** C9 at the scenario: the public key that [generateUserKeypair] returns
    and the private key that [decryptPrivateKey] returns. *)
Lemma capability_scoping_witness :
  (type Demo.publicKey = public
   /\ usages Demo.publicKey = [encrypt; wrapKey]
   /\ cannot_unwrap (P := Stub.platform) Demo.publicKey)
  /\ (type Demo.privateKey = private
      /\ usages Demo.privateKey = [decrypt; unwrapKey]
      /\ cannot_wrap (P := Stub.platform) Demo.privateKey).
Proof.
  split.
  - apply (capability_scoping (P := Stub.platform) public Demo.publicKey).
    apply (generated_public (P := Stub.platform) 0
             {| publicKey := Demo.publicKey; privateKey := Demo.privateKey |}
             4).
    reflexivity.
  - apply (capability_scoping (P := Stub.platform) private Demo.privateKey).
    apply (unsealed_private (P := Stub.platform) (encryptedKey Demo.sealed)
             (salt Demo.sealed) (iv Demo.sealed) Demo.passphrase).
    vm_compute. reflexivity.
Defined.

(** C10 at the scenario's passphrase and a salt of sixteen bytes. *)
Lemma derived_key_never_exported_witness :
  exists k,
    deriveKeyFromPassphrase (P := Stub.platform) Demo.passphrase
      (replicate 16 x01) = Ok k
    /\ extractable k = false
    /\ usages k = [encrypt; decrypt]
    /\ never_exported k.
Proof.
  exact (derived_key_never_exported (P := Stub.platform) stub_pbkdf2_length
           Demo.passphrase (replicate 16 x01)).
Defined.

(** ** The deterministic platform keeps the further laws *)

Lemma stub_spki_roundtrip : spki_roundtrip Stub.platform.
Proof. intros k. reflexivity. Qed.

Lemma stub_random_length : random_length Stub.platform.
Proof.
  intros n e.
  change (length (fst (Stub.getRandomValues n e)) = n).
  unfold Stub.getRandomValues. cbn [fst].
  rewrite length_map, length_seq. reflexivity.
Qed.

Lemma stub_aes_generate_length : aes_generate_length Stub.platform.
Proof.
  intros e.
  change (length (fst (Stub.getRandomValues 32 e)) = 32%nat).
  apply stub_random_length.
Qed.

Lemma split_on_app (sep : N) (a rest : JSString) :
  forallb (fun c => negb (c =? sep)) a = true ->
  Stub.split_on sep (a ++ sep :: rest) = a :: Stub.split_on sep rest.
Proof.
  induction a as [|c a IH]; simpl; intros H.
  - rewrite N.eqb_refl. reflexivity.
  - apply andb_true_iff in H as [Hc Ha]. apply negb_true_iff in Hc.
    rewrite Hc, (IH Ha). reflexivity.
Qed.

Lemma split_on_none (sep : N) (a : JSString) :
  forallb (fun c => negb (c =? sep)) a = true ->
  Stub.split_on sep a = [a].
Proof.
  induction a as [|c a IH]; simpl; intros H; [reflexivity|].
  apply andb_true_iff in H as [Hc Ha]. apply negb_true_iff in Hc.
  rewrite Hc, (IH Ha). reflexivity.
Qed.

Lemma encode_no_comma (bs : Bytes) :
  forallb (fun c => negb (c =? 44)) (Base64.encode bs) = true.
Proof.
  pose proof (encode_characters bs) as H.
  rewrite forallb_forall in *. intros c Hc. specialize (H c Hc).
  destruct (N.eqb_spec c 44) as [->|_]; [|reflexivity].
  vm_compute in H. discriminate H.
Qed.

Lemma stub_json_roundtrip : json_roundtrip Stub.platform.
Proof.
  intros a b c.
  change (Stub.JSON_parse
            (Base64.encode a ++ 44 :: Base64.encode b
             ++ 44 :: Base64.encode c)
          = Ok {| encryptedKey := Base64.encode a;
                  salt := Base64.encode b;
                  iv := Base64.encode c |}).
  unfold Stub.JSON_parse.
  rewrite !split_on_app, split_on_none by apply encode_no_comma.
  reflexivity.
Qed.

(** ** More theorems at the scenario *)

Lemma demo_generated_pair :
  generated_pair Stub.platform Demo.pair_name Demo.pair_name.
Proof. exists 0, 4. reflexivity. Defined.

Lemma demo_handed_out_public :
  handed_out (P := Stub.platform) public Demo.publicKey.
Proof.
  apply (generated_public (P := Stub.platform) 0
           {| publicKey := Demo.publicKey; privateKey := Demo.privateKey |} 4).
  reflexivity.
Defined.

Lemma demo_handed_out_private :
  handed_out (P := Stub.platform) private Demo.privateKey.
Proof.
  apply (unsealed_private (P := Stub.platform) (encryptedKey Demo.sealed)
           (salt Demo.sealed) (iv Demo.sealed) Demo.passphrase).
  vm_compute. reflexivity.
Defined.

(** X1 at the scenario's public key. *)
Lemma public_key_export_import_witness :
  exists text,
    exportPublicKey (P := Stub.platform) Demo.publicKey = Ok text
    /\ importPublicKey text = Ok Demo.publicKey.
Proof.
  exact (public_key_export_import (P := Stub.platform) stub_spki_roundtrip
           Demo.publicKey demo_handed_out_public).
Defined.

(** X2 at the scenario's private key. *)
Lemma private_key_export_import_witness :
  exists text,
    exportPrivateKey (P := Stub.platform) Demo.privateKey = Ok text
    /\ importPrivateKey text = Ok Demo.privateKey.
Proof.
  exact (private_key_export_import (P := Stub.platform) stub_pkcs8_roundtrip
           Demo.privateKey demo_handed_out_private).
Defined.

(** X3 at the scenario's key pair. *)
Lemma export_refuses_other_half_witness :
  exportPrivateKey (P := Stub.platform) Demo.publicKey
  = Throw (DOMException InvalidAccessError)
  /\ exportPublicKey (P := Stub.platform) Demo.privateKey
     = Throw (DOMException InvalidAccessError).
Proof.
  split.
  - exact (export_refuses_other_half (P := Stub.platform) public
             Demo.publicKey demo_handed_out_public).
  - exact (export_refuses_other_half (P := Stub.platform) private
             Demo.privateKey demo_handed_out_private).
Defined.

(** X6 at the scenario's private key and passphrase. *)
Lemma sealed_record_format_witness :
  exists sealed e' saltBuffer ivBuffer encryptedBuffer,
    encryptPrivateKey (P := Stub.platform) (user_private_key Demo.pair_name)
      Demo.passphrase 4 = (Ok sealed, e')
    /\ base64ToArrayBuffer (salt sealed) = Ok saltBuffer
    /\ length saltBuffer = 16%nat
    /\ base64ToArrayBuffer (iv sealed) = Ok ivBuffer
    /\ length ivBuffer = 12%nat
    /\ base64ToArrayBuffer (encryptedKey sealed) = Ok encryptedBuffer.
Proof.
  exact (sealed_record_format (P := Stub.platform) stub_pbkdf2_length
           stub_random_length Demo.pair_name Demo.passphrase 4).
Defined.

(** X10 at a user without keys. *)
Lemma missing_keys_are_reported_witness :
  FileList.handleDecrypt (P := Stub.platform) MoreDemo.world_without_keys
    Demo.passphrase
  = ([FileList.setDecrypting (Some (lit "file-1"));
      FileList.select_encrypted_private_key (lit "user-1");
      FileList.console_error
        (Error "Encryption keys not found. Please set up your keys first.");
      FileList.setDecrypting None],
     Throw (Error "Encryption keys not found. Please set up your keys first.")).
Proof.
  exact (missing_keys_are_reported (P := Stub.platform)
           MoreDemo.world_without_keys Demo.passphrase (lit "user-1")
           Demo.file eq_refl eq_refl eq_refl).
Defined.

(** X11 at the scenario, with the passphrase one character off: this
    platform gives the failure no text, and the dialog shows its own. *)
Lemma dialog_after_wrong_passphrase_witness :
  let st' :=
    fst (DecryptDialog.handleDecrypt
           (fun p => snd (FileList.handleDecrypt (P := Stub.platform)
                            Demo.world p))
           MoreDemo.dialog) in
  DecryptDialog.open st' = true
  /\ DecryptDialog.passphrase st' = Demo.wrong_passphrase
  /\ DecryptDialog.loading st' = false
  /\ DecryptDialog.error st'
     = "Decryption failed. Please check your passphrase."%string.
Proof.
  apply (dialog_after_wrong_passphrase (P := Stub.platform)
           stub_pbkdf2_length Demo.world Demo.file Demo.sealed
           MoreDemo.dialog "").
  - exists (lit "user-1"), (Stub.JSON_stringify Demo.sealed). repeat split.
  - eexists _, _, _. repeat split; lazy; reflexivity.
  - discriminate.
Defined.

(** X12 at the row that the scenario's setup inserts. *)
Lemma keys_are_stored_only_for_an_accepted_form_witness :
  KeySetup.user (MoreDemo.setup_world None)
  = Some (KeySetup.user_id MoreDemo.keys)
  /\ KeySetup.passphrase (MoreDemo.setup_world None)
     = KeySetup.confirmPassphrase (MoreDemo.setup_world None)
  /\ (12 <= length (KeySetup.passphrase (MoreDemo.setup_world None)))%nat.
Proof.
  apply (keys_are_stored_only_for_an_accepted_form (P := Stub.platform)
           (MoreDemo.setup_world None) 0 MoreDemo.keys).
  vm_compute. right. left. reflexivity.
Defined.

(** X13 at the scenario's setup. *)
Lemma setup_stores_working_keys_witness :
  exists row e' pk sk sealed,
    KeySetup.handleSetupKeys (P := Stub.platform) (MoreDemo.setup_world None)
      (0, [])
    = (Ok tt,
       (e',
        [KeySetup.setLoading true; KeySetup.insert row;
         KeySetup.toast "Encryption keys created"
           "Your account is now ready for secure file sharing!";
         KeySetup.onComplete; KeySetup.setLoading false]))
    /\ KeySetup.user_id row = lit "user-1"
    /\ generated_pair Stub.platform pk sk
    /\ importPublicKey (KeySetup.public_key row) = Ok (user_public_key pk)
    /\ JSON_parse (KeySetup.encrypted_private_key row) = Ok sealed
    /\ decryptPrivateKey (encryptedKey sealed) (salt sealed) (iv sealed)
         Demo.passphrase
       = Ok (user_private_key sk).
Proof.
  apply (setup_stores_working_keys (P := Stub.platform) stub_aead_correct
           stub_pbkdf2_length stub_pkcs8_roundtrip stub_spki_roundtrip
           stub_json_roundtrip (MoreDemo.setup_world None) (lit "user-1") 0).
  - reflexivity.
  - reflexivity.
  - vm_compute. lia.
  - intros row. reflexivity.
Defined.

(** X14 at the scenario's setup, the database refusing the row. *)
Lemma setup_reports_a_refused_insert_witness :
  exists row e',
    KeySetup.handleSetupKeys (P := Stub.platform)
      (MoreDemo.setup_world (Some "duplicate key value"%string)) (0, [])
    = (Ok tt,
       (e',
        [KeySetup.setLoading true; KeySetup.insert row;
         KeySetup.console_error (ClientError "duplicate key value");
         KeySetup.toast "Key setup failed" "duplicate key value";
         KeySetup.setLoading false])).
Proof.
  apply (setup_reports_a_refused_insert (P := Stub.platform)
           stub_pbkdf2_length
           (MoreDemo.setup_world (Some "duplicate key value"%string))
           (lit "user-1") 0 "duplicate key value").
  - reflexivity.
  - reflexivity.
  - vm_compute. lia.
  - intros row. reflexivity.
Defined.

(** X15 at the scenario's upload. *)
Lemma upload_download_roundtrip_witness :
  exists row blob e',
    FileUpload.processFile (P := Stub.platform)
      (MoreDemo.upload_world (Some (KeySetup.public_key MoreDemo.keys))
         None None)
      MoreDemo.upload_file (100, ([], []))
    = (Ok tt,
       (e',
        (UploadState.finished MoreDemo.upload_file 100 FileUpload.complete
           None [],
         [FileUpload.select_public_key (lit "user-1");
          FileUpload.upload (FileUpload.storage_path row) blob;
          FileUpload.insert row;
          FileUpload.toast "File encrypted and uploaded"
            (lit "notes.txt" ++ lit " is now securely stored.");
          FileUpload.onUploadComplete])))
    /\ FileUpload.filename row = lit "notes.txt"
    /\ FileUpload.file_size row = 5
    /\ FileUpload.storage_path row
       = lit "user-1" ++ lit "/" ++ lit "notes.txt" ++ decimal 1700000000000
    /\ forall (fw : FileList.World) (passphrase : JSString)
         (record : FileList.EncryptedFile.t) (sealed : SealedPrivateKey)
         (privateKey : CryptoKey),
         Flow.stored_key fw record sealed ->
         decryptPrivateKey (encryptedKey sealed) (salt sealed) (iv sealed)
           passphrase = Ok privateKey ->
         unwrapping_key privateKey Demo.pair_name ->
         MoreFlow.stored_file fw record row blob ->
         snd (FileList.handleDecrypt fw passphrase) = Ok tt
         /\ In (FileList.save_file (lit "notes.txt") Demo.message)
              (fst (FileList.handleDecrypt fw passphrase)).
Proof.
  apply (upload_download_roundtrip (P := Stub.platform) stub_aead_correct
           stub_rsa_oaep_correct stub_spki_roundtrip stub_aes_generate_length
           (MoreDemo.upload_world (Some (KeySetup.public_key MoreDemo.keys))
              None None)
           MoreDemo.upload_file (lit "user-1") Demo.pair_name Demo.pair_name
           [] 100).
  - reflexivity.
  - reflexivity.
  - exact demo_generated_pair.
  - intros path blob. reflexivity.
  - intros row. reflexivity.
Defined.

(** X16 at the scenario's upload, the storage refusing the blob. *)
Lemma refused_upload_inserts_nothing_witness :
  exists path blob e',
    FileUpload.processFile (P := Stub.platform)
      (MoreDemo.upload_world (Some (KeySetup.public_key MoreDemo.keys))
         (Some "quota exceeded"%string) None)
      MoreDemo.upload_file (100, ([], []))
    = (Ok tt,
       (e',
        (UploadState.finished MoreDemo.upload_file 50 FileUpload.failed
           (Some "quota exceeded"%string) [],
         [FileUpload.select_public_key (lit "user-1");
          FileUpload.upload path blob;
          FileUpload.console_error (ClientError "quota exceeded");
          FileUpload.toast "Upload failed" (lit "quota exceeded")]))).
Proof.
  apply (refused_upload_inserts_nothing (P := Stub.platform)
           stub_rsa_oaep_correct stub_spki_roundtrip stub_aes_generate_length
           (MoreDemo.upload_world (Some (KeySetup.public_key MoreDemo.keys))
              (Some "quota exceeded"%string) None)
           MoreDemo.upload_file (lit "user-1") Demo.pair_name Demo.pair_name
           [] 100 "quota exceeded").
  - reflexivity.
  - reflexivity.
  - exact demo_generated_pair.
  - intros path blob. reflexivity.
Defined.

(** X17 at the scenario's upload, the database refusing the row. *)
Lemma refused_row_leaves_the_blob_witness :
  exists row blob e',
    FileUpload.processFile (P := Stub.platform)
      (MoreDemo.upload_world (Some (KeySetup.public_key MoreDemo.keys))
         None (Some "row violates policy"%string))
      MoreDemo.upload_file (100, ([], []))
    = (Ok tt,
       (e',
        (UploadState.finished MoreDemo.upload_file 80 FileUpload.failed
           (Some "row violates policy"%string) [],
         [FileUpload.select_public_key (lit "user-1");
          FileUpload.upload (FileUpload.storage_path row) blob;
          FileUpload.insert row;
          FileUpload.console_error (ClientError "row violates policy");
          FileUpload.toast "Upload failed" (lit "row violates policy")]))).
Proof.
  apply (refused_row_leaves_the_blob (P := Stub.platform)
           stub_rsa_oaep_correct stub_spki_roundtrip stub_aes_generate_length
           (MoreDemo.upload_world (Some (KeySetup.public_key MoreDemo.keys))
              None (Some "row violates policy"%string))
           MoreDemo.upload_file (lit "user-1") Demo.pair_name Demo.pair_name
           [] 100 "row violates policy").
  - reflexivity.
  - reflexivity.
  - exact demo_generated_pair.
  - intros path blob. reflexivity.
  - intros row. reflexivity.
Defined.

(** X18 at the scenario's upload, for a user without keys. *)
Lemma upload_without_keys_witness :
  FileUpload.processFile (P := Stub.platform)
    (MoreDemo.upload_world None None None) MoreDemo.upload_file
    (100, ([], []))
  = (Ok tt,
     (100,
      (UploadState.failed_at_once MoreDemo.upload_file
         "User keys not found. Please set up encryption keys first." [],
       [FileUpload.select_public_key (lit "user-1");
        FileUpload.console_error
          (Error "User keys not found. Please set up encryption keys first.");
        FileUpload.toast "Upload failed"
          (lit "User keys not found. Please set up encryption keys first.")]))).
Proof.
  exact (upload_without_keys (P := Stub.platform)
           (MoreDemo.upload_world None None None) MoreDemo.upload_file
           (lit "user-1") [] 100 eq_refl eq_refl).
Defined.

(** X20 at the scenario's form. *)
Lemma generated_passphrase_is_confirmed_by_hand_witness :
  let w' :=
    fst (fst (KeySetup.handleGeneratePassphrase (P := Stub.platform)
                (MoreDemo.setup_world None) 7)) in
  let e' :=
    snd (KeySetup.handleGeneratePassphrase (P := Stub.platform)
           (MoreDemo.setup_world None) 7) in
  KeySetup.handleSetupKeys w' (e', [])
  = (Ok tt,
     (e', [KeySetup.toast "Passphrases don't match"
             "Please make sure both passphrases are identical."]))
  /\ forall insert_error,
       exists rest,
         snd (snd (KeySetup.handleSetupKeys
                     {| KeySetup.user := KeySetup.user w';
                        KeySetup.passphrase := KeySetup.passphrase w';
                        KeySetup.confirmPassphrase := KeySetup.passphrase w';
                        KeySetup.insert_error := insert_error |} (e', [])))
         = KeySetup.setLoading true :: rest.
Proof.
  exact (generated_passphrase_is_confirmed_by_hand (P := Stub.platform)
           (MoreDemo.setup_world None) (lit "user-1") 7 eq_refl).
Defined.

(** X22 at the scenario: the keys of the setup, the row and the blob of
    the upload, and the download under the passphrase of the setup. *)
Lemma setup_upload_download_witness :
  snd (FileList.handleDecrypt (P := Stub.platform) MoreDemo.download_world
         Demo.passphrase) = Ok tt
  /\ In (FileList.save_file (lit "notes.txt") Demo.message)
       (fst (FileList.handleDecrypt (P := Stub.platform)
               MoreDemo.download_world Demo.passphrase)).
Proof.
  apply (setup_upload_download (P := Stub.platform) stub_aead_correct
           stub_pbkdf2_length stub_pkcs8_roundtrip stub_rsa_oaep_correct
           stub_spki_roundtrip stub_json_roundtrip stub_aes_generate_length
           (MoreDemo.setup_world None)
           (MoreDemo.upload_world (Some (KeySetup.public_key MoreDemo.keys))
              None None)
           MoreDemo.download_world (lit "user-1") MoreDemo.upload_file
           MoreDemo.record [] 0 100 MoreDemo.keys (fst MoreDemo.stored)
           (snd MoreDemo.stored)).
  - reflexivity.
  - reflexivity.
  - vm_compute. lia.
  - vm_compute. right. left. reflexivity.
  - reflexivity.
  - reflexivity.
  - vm_compute. right. left. reflexivity.
  - vm_compute. right. right. left. reflexivity.
  - reflexivity.
  - reflexivity.
  - reflexivity.
  - repeat split.
Defined.
